(** * Download store of lanzouyun-disk: scheduler, transfer, resolver, post-processor

    A shallow embedding of [src/renderer/store/Download.ts].

    JavaScript runs the store on one thread.  An [async] method runs
    synchronously up to its first [await]; what follows the [await] runs
    later, when the awaited promise settles.  The embedding therefore
    cuts every method at its [await]s: the part that runs at the call is
    a function on the store, the suspended rest is a continuation kept in
    the store, and the settling of an awaited promise is an event that
    resumes it.

    Objects of the source ([DownloadTask], [DownloadSubTask],
    [AbortController]) are shared: the active list, the finished list and
    every suspended [start] hold references to the same objects.  They
    live in heaps indexed by allocation order and are named by their
    index. *)

From Stdlib Require Import OrderedTypeEx.
From stdpp Require Import gmap strings list fin_maps sorting.
From ITree Require Import ITree ITreeFacts Events.State Events.StateFacts.
From Paco Require Import paco.

Local Open Scope string_scope.
Local Open Scope list_scope.

(** ** Data model *)

(** Modelled from the spec: [TaskStatus] of [./AbstractTask], which is not
    part of this file's source.  The spec gives a subtask the statuses
    ready, pending, pause, fail and finish, the members the source uses. *)
Module TaskStatus.
Inductive t := ready | pending | pause | fail | finish.
#[global] Instance eq_dec : EqDecision t.
Proof. solve_decision. Defined.
End TaskStatus.

(** Modelled from the spec: [URLType] of [common/core/ls], which is not
    part of this file's source.  The spec has a task's type in
    {file, folder}, the members the source uses. *)
Module URLType.
Inductive t := file | folder.
#[global] Instance eq_dec : EqDecision t.
Proof. solve_decision. Defined.
End URLType.

(** A JavaScript number as the store meets it: a byte count, or [NaN]. *)
Inductive num := NaN | Num (z : Z).

#[global] Instance num_eq_dec : EqDecision num.
Proof. solve_decision. Defined.

(** Value of a decimal digit character. *)
Definition digit_of (c : Ascii.ascii) : option Z :=
  let n := Z.of_N (Ascii.N_of_ascii c) in
  if bool_decide (48 <= n <= 57)%Z then Some (n - 48)%Z else None.

Fixpoint digits_value (acc : Z) (s : string) : option Z :=
  match s with
  | EmptyString => Some acc
  | String c s' =>
      match digit_of c with
      | Some d => digits_value (10 * acc + d)%Z s'
      | None => None
      end
  end.

(** [Number(v)] on a header value: [Number(undefined)] is [NaN], the
    empty string is [0], a string of decimal digits is its value.  A
    content-length is a string of digits; the other numeric literals of
    JavaScript (signs, fractions, exponents, radix prefixes, surrounding
    blanks) and the rounding of integers above 2^53 are outside this
    model and read as [NaN] resp. exactly. *)
Definition toNumber (v : option string) : num :=
  match v with
  | None => NaN
  | Some s => match digits_value 0 s with Some z => Num z | None => NaN end
  end.

(** Truthiness of an optional string: [undefined] and [''] are falsy. *)
Definition truthy (v : option string) : bool :=
  match v with
  | Some s => negb (bool_decide (s = ""))
  | None => false
  end.

Module DownloadSubTask.
Record t := mk {
  url : string;
  pwd : option string;
  dir : string;
  name : string;
  resolve : Z;
  status : TaskStatus.t;
  size : num
}.
Definition set_status (st : TaskStatus.t) (s : t) : t :=
  mk (url s) (pwd s) (dir s) (name s) (resolve s) st (size s).
Definition set_size (n : num) (s : t) : t :=
  mk (url s) (pwd s) (dir s) (name s) (resolve s) (status s) n.
Definition set_resolve (n : Z) (s : t) : t :=
  mk (url s) (pwd s) (dir s) (name s) n (status s) (size s).
End DownloadSubTask.

(** [tasks] holds references to [DownloadSubTask] objects. *)
Module DownloadTask.
Record t := mk {
  url : string;
  urlType : option URLType.t;
  name : string;
  dir : string;
  pwd : option string;
  merge : option bool;
  tasks : list nat
}.
End DownloadTask.

(** Response headers, keyed by lower-case header name. *)
Abbreviation Headers := (gmap string string).

(** One entry of the listing [lsShare] returns, and the listing. *)
Record ShareEntry := mkEntry {
  e_url : string;
  e_name : string;
  e_size : string;
  e_pwd : option string
}.

Record ShareListing := mkListing {
  ls_name : string;
  ls_type : URLType.t;
  ls_list : list ShareEntry
}.

(** The argument of [addTask]. *)
Record AddOptions := mkOptions {
  o_name : string;
  o_url : string;
  o_pwd : option string;
  o_merge : option bool
}.

(** Helpers of [common/util] that the store calls and whose code is not
    part of this file's source. *)
Class Util := {
  isSpecificFile : string -> bool;
  restoreFileName : string -> string;
  sizeToByte : string -> num
}.

(** [path.join] on two normalised POSIX segments. *)
Definition path_join (a b : string) : string := a +:+ "/" +:+ b.

(** ** The store *)

(** A suspended [async] frame: which promise it awaits and the objects
    its local variables refer to. *)
Inductive Cont :=
| KLsShare (task : nat)
| KDownUrl (task sub : nat) (withPwd : bool)
| KEnsureDir (task sub : nat) (downloadUrl : string)
| KCreateStream (task sub : nat) (downloadUrl : string)
| KPipeline (task sub ctrl : nat)
| KFsRemove (task : DownloadTask.t).

(** [list_] is the field [list] of the source.  [ctrlH] holds, for each
    [AbortController], its [signal.aborted].  [posts] lists the tasks for
    which [onTaskFinish] has been scheduled.  [statusLog] is a history
    variable: every assignment to a subtask's [status] appends the
    object, its old and its new status. *)
Record Store := mkStore {
  tasksH : list DownloadTask.t;
  subsH : list DownloadSubTask.t;
  ctrlH : list bool;
  list_ : list nat;
  finishList : list nat;
  dir : string;
  taskSignal : gmap string nat;
  conts : list (option Cont);
  posts : list nat;
  statusLog : list (nat * TaskStatus.t * TaskStatus.t)
}.

Definition set_tasksH (v : list DownloadTask.t) (σ : Store) : Store :=
  mkStore v (subsH σ) (ctrlH σ) (list_ σ) (finishList σ) (dir σ)
          (taskSignal σ) (conts σ) (posts σ) (statusLog σ).

Definition set_subsH (v : list DownloadSubTask.t) (σ : Store) : Store :=
  mkStore (tasksH σ) v (ctrlH σ) (list_ σ) (finishList σ) (dir σ)
          (taskSignal σ) (conts σ) (posts σ) (statusLog σ).

Definition set_ctrlH (v : list bool) (σ : Store) : Store :=
  mkStore (tasksH σ) (subsH σ) v (list_ σ) (finishList σ) (dir σ)
          (taskSignal σ) (conts σ) (posts σ) (statusLog σ).

Definition set_list (v : list nat) (σ : Store) : Store :=
  mkStore (tasksH σ) (subsH σ) (ctrlH σ) v (finishList σ) (dir σ)
          (taskSignal σ) (conts σ) (posts σ) (statusLog σ).

Definition set_finishList (v : list nat) (σ : Store) : Store :=
  mkStore (tasksH σ) (subsH σ) (ctrlH σ) (list_ σ) v (dir σ)
          (taskSignal σ) (conts σ) (posts σ) (statusLog σ).

Definition set_taskSignal (v : gmap string nat) (σ : Store) : Store :=
  mkStore (tasksH σ) (subsH σ) (ctrlH σ) (list_ σ) (finishList σ) (dir σ)
          v (conts σ) (posts σ) (statusLog σ).

Definition set_conts (v : list (option Cont)) (σ : Store) : Store :=
  mkStore (tasksH σ) (subsH σ) (ctrlH σ) (list_ σ) (finishList σ) (dir σ)
          (taskSignal σ) v (posts σ) (statusLog σ).

Definition set_posts (v : list nat) (σ : Store) : Store :=
  mkStore (tasksH σ) (subsH σ) (ctrlH σ) (list_ σ) (finishList σ) (dir σ)
          (taskSignal σ) (conts σ) v (statusLog σ).

Definition set_statusLog (v : list (nat * TaskStatus.t * TaskStatus.t))
    (σ : Store) : Store :=
  mkStore (tasksH σ) (subsH σ) (ctrlH σ) (list_ σ) (finishList σ) (dir σ)
          (taskSignal σ) (conts σ) (posts σ) v.

(** The store of a fresh [Download] whose [init] has run: the listeners
    of [finish] and [finish-task] are registered, nothing else exists.
    Lists restored by the persistence layer are not part of the model. *)
Definition initial (d : string) : Store :=
  mkStore [] [] [] [] [] d ∅ [] [] [].

(** ** Reading objects through the store *)

(** An index outside a heap names no object; the functions below leave
    the store alone where they meet one. *)

Definition subtasks (σ : Store) (t : nat) : list nat :=
  match tasksH σ !! t with
  | Some T => DownloadTask.tasks T
  | None => []
  end.

Definition task_url (σ : Store) (t : nat) : option string :=
  DownloadTask.url <$> tasksH σ !! t.

Definition sub_status (σ : Store) (l : nat) : option TaskStatus.t :=
  DownloadSubTask.status <$> subsH σ !! l.

Definition sub_url (σ : Store) (l : nat) : option string :=
  DownloadSubTask.url <$> subsH σ !! l.

(** [item.status === st] *)
Definition has_status (σ : Store) (st : TaskStatus.t) (l : nat) : bool :=
  bool_decide (sub_status σ l = Some st).

(** The getter [DownloadTask.status]. *)
Definition task_status (σ : Store) (t : nat) : TaskStatus.t :=
  if existsb (has_status σ TaskStatus.pending) (subtasks σ t)
  then TaskStatus.pending else TaskStatus.ready.

(** [this.list.map(item => item.tasks).flat().filter(filter)] *)
Definition getList (filter : nat -> bool) (σ : Store) : list nat :=
  List.filter filter (flat_map (subtasks σ) (list_ σ)).

(** The getter [queue]. *)
Definition queue (σ : Store) : nat :=
  length (getList (has_status σ TaskStatus.pending) σ).

Definition canStart (σ : Store) : bool := (queue σ <? 3)%nat.

(** [this.list.find(item => item.url === url)] *)
Definition findTask (url : string) (σ : Store) : option nat :=
  List.find (fun t => bool_decide (task_url σ t = Some url)) (list_ σ).

(** [signal.aborted] of the controller the map holds under [key]; a
    missing entry makes the optional chain [undefined], which is falsy. *)
Definition signal_aborted (σ : Store) (key : string) : bool :=
  match taskSignal σ !! key with
  | Some c => default false (ctrlH σ !! c)
  | None => false
  end.

(** ** Writing objects *)

(** [sub.status = st] *)
Definition write_status (l : nat) (st : TaskStatus.t) (σ : Store) : Store :=
  match subsH σ !! l with
  | Some s =>
      set_statusLog (statusLog σ ++ [(l, DownloadSubTask.status s, st)])
        (set_subsH (<[l := DownloadSubTask.set_status st s]> (subsH σ)) σ)
  | None => σ
  end.

Definition write_size (l : nat) (n : num) (σ : Store) : Store :=
  match subsH σ !! l with
  | Some s => set_subsH (<[l := DownloadSubTask.set_size n s]> (subsH σ)) σ
  | None => σ
  end.

Definition write_resolve (l : nat) (n : Z) (σ : Store) : Store :=
  match subsH σ !! l with
  | Some s => set_subsH (<[l := DownloadSubTask.set_resolve n s]> (subsH σ)) σ
  | None => σ
  end.

Definition push_cont (k : Cont) (σ : Store) : Store :=
  set_conts (conts σ ++ [Some k]) σ.

(** ** Cancellation *)

(** [abortTask]: the executor of the promise runs at the call.  The
    boolean tells whether the promise is resolved: it is in the [else]
    branch only, the [resolve] of the first branch being commented out
    in the source. *)
Definition abortTask (l : nat) (σ : Store) : Store * bool :=
  match sub_url σ l with
  | Some u =>
      match taskSignal σ !! u with
      | Some c =>
          (set_taskSignal (delete u (taskSignal σ))
             (set_ctrlH (<[c := true]> (ctrlH σ)) σ), false)
      | None => (σ, true)
      end
  | None => (σ, true)
  end.

Definition pause_sub (acc : Store * bool) (l : nat) : Store * bool :=
  let '(σ, ok) := acc in
  if has_status σ TaskStatus.ready l || has_status σ TaskStatus.pending l then
    let '(σ', r) := abortTask l (write_status l TaskStatus.pause σ) in
    (σ', ok && r)
  else (σ, ok).

(** [pause]: the whole body is the argument of [Promise.all] and runs at
    the call.  The boolean tells whether the promise [pause] returns is
    resolved, which is when every [abortTask] promise is. *)
Definition pause (url : string) (σ : Store) : Store * bool :=
  match findTask url σ with
  | Some t => foldl pause_sub (σ, true) (subtasks σ t)
  | None => (σ, true)
  end.

Definition pauseAll (σ : Store) : Store :=
  foldl (fun σ' t => match task_url σ' t with
                     | Some u => fst (pause u σ')
                     | None => σ'
                     end) σ (list_ σ).

Definition abortAll (ls : list nat) (σ : Store) : Store :=
  foldl (fun σ' l => fst (abortTask l σ')) σ ls.

Definition remove (url : string) (σ : Store) : Store :=
  let σ1 := match findTask url σ with
            | Some t => abortAll (subtasks σ t) σ
            | None => σ
            end in
  set_list (List.filter (fun t => negb (bool_decide (task_url σ1 t = Some url)))
              (list_ σ1)) σ1.

Definition removeAll (σ : Store) : Store :=
  set_list [] (foldl (fun σ' t => abortAll (subtasks σ' t) σ') σ (list_ σ)).

Definition removeAllFinish (σ : Store) : Store := set_finishList [] σ.

(** ** Starting a task *)

Definition reset_sub (σ : Store) (l : nat) : Store :=
  if has_status σ TaskStatus.pause l || has_status σ TaskStatus.fail l
  then write_status l TaskStatus.ready σ else σ.

(** [start] from the search of a ready subtask up to the [await] of the
    direct address. *)
Definition run_subtask (t : nat) (σ : Store) : Store :=
  match List.find (has_status σ TaskStatus.ready) (subtasks σ t) with
  | None => σ
  | Some l =>
      let withPwd := match subsH σ !! l with
                     | Some s => truthy (DownloadSubTask.pwd s)
                     | None => false
                     end in
      push_cont (KDownUrl t l withPwd) (write_status l TaskStatus.pending σ)
  end.

(** [start] up to its first [await].  With no subtasks yet it suspends
    in [initTask] on [lsShare]. *)
Definition start (url : string) (reset : bool) (σ : Store) : Store :=
  match findTask url σ with
  | None => σ
  | Some t =>
      if negb (canStart σ) then σ
      else if bool_decide (subtasks σ t = []) then push_cont (KLsShare t) σ
      else run_subtask t
             (if reset then foldl reset_sub σ (subtasks σ t) else σ)
  end.

(** The body of the inner loop of [startAll]. *)
Definition resume_sub (σ : Store) (l : nat) : Store :=
  if has_status σ TaskStatus.pause l
  then write_status l TaskStatus.ready σ else σ.

(** The body of the outer loop of [startAll]. *)
Definition startAll_task (σ : Store) (t : nat) : Store :=
  let σ1 := foldl resume_sub σ (subtasks σ t) in
  match task_url σ1 t with
  | Some u => start u false σ1
  | None => σ1
  end.

Definition startAll (σ : Store) : Store :=
  foldl startAll_task σ (list_ σ).

Definition checkTask (σ : Store) : Store :=
  match List.find (fun t => bool_decide (task_status σ t = TaskStatus.ready))
                  (list_ σ) with
  | Some t => if truthy (task_url σ t)
              then start (default "" (task_url σ t)) false σ
              else σ
  | None => σ
  end.

(** The reaction of [startQueue]: [this.list.length && this.checkTask()] *)
Definition autorun (σ : Store) : Store :=
  match list_ σ with
  | [] => σ
  | _ => checkTask σ
  end.

(** ** Resuming [start] *)

Section WithUtil.
Context {U : Util}.

(** A subtask built by [initTask] from one entry of the listing. *)
Definition new_subtask (T : DownloadTask.t) (dir : string) (value : ShareEntry)
    : DownloadSubTask.t :=
  let name :=
    if negb (default false (DownloadTask.merge T)) && isSpecificFile (e_name value)
    then restoreFileName (e_name value) else e_name value in
  DownloadSubTask.mk (e_url value) (e_pwd value) dir name 0
    TaskStatus.ready (sizeToByte (e_size value)).

(** [initTask] after [lsShare] has answered: the task gets its type, its
    name when it has none, and a fresh array of fresh subtasks. *)
Definition initTask (t : nat) (r : ShareListing) (σ : Store) : Store :=
  match tasksH σ !! t with
  | Some T =>
      let name := if bool_decide (DownloadTask.name T = "")
                  then ls_name r else DownloadTask.name T in
      let dir := path_join (DownloadTask.dir T) name +:+ ".downloading" in
      let T' := DownloadTask.mk (DownloadTask.url T) (Some (ls_type r)) name
                  (DownloadTask.dir T) (DownloadTask.pwd T) (DownloadTask.merge T)
                  (seq (length (subsH σ)) (length (ls_list r))) in
      set_tasksH (<[t := T']> (tasksH σ))
        (set_subsH (subsH σ ++ List.map (new_subtask T' dir) (ls_list r)) σ)
  | None => σ
  end.

(** The [catch] of [start]. *)
Definition on_failure (t l : nat) (σ : Store) : Store :=
  if match task_url σ t with
     | Some u => signal_aborted σ u
     | None => false
     end
  then write_status l TaskStatus.pause σ
  else write_status l TaskStatus.fail σ.

(** [start] once [createStream] has answered with the response headers,
    up to the [await] of the pipeline. *)
Definition on_stream (t l : nat) (headers : Headers) (σ : Store) : Store :=
  let σ1 := if truthy (headers !! "content-disposition")
            then write_size l (toNumber (headers !! "content-length")) σ
            else σ in
  let abort := length (ctrlH σ1) in
  let σ2 := set_ctrlH (ctrlH σ1 ++ [false]) σ1 in
  let σ3 := match task_url σ2 t with
            | Some u => set_taskSignal (<[u := abort]> (taskSignal σ2)) σ2
            | None => σ2
            end in
  push_cont (KPipeline t l abort) σ3.

(** The listener of [finish]. *)
Definition on_finish (info : nat) (σ : Store) : Store :=
  let σ1 := set_posts (posts σ ++ [info]) σ in
  let σ2 := match task_url σ1 info with
            | Some u => remove u σ1
            | None => σ1
            end in
  set_finishList (finishList σ2 ++ [info]) σ2.

(** The listener of [finish-task]. *)
Definition on_finish_task (info task : nat) (σ : Store) : Store :=
  let σ1 := match sub_url σ task with
            | Some u => set_taskSignal (delete u (taskSignal σ)) σ
            | None => σ
            end in
  if forallb (has_status σ1 TaskStatus.finish) (subtasks σ1 info)
  then on_finish info σ1
  else match task_url σ1 info with
       | Some u => start u false σ1
       | None => σ1
       end.

(** [start] once the pipeline has completed. *)
Definition on_piped (t l : nat) (σ : Store) : Store :=
  on_finish_task t l (write_status l TaskStatus.finish σ).

(** ** Admission *)

Inductive AdmissionError := DuplicateTask | AdmissionCancelled.

(** State of the promise [pushAndCheckList] returns when [addTask]
    returns. *)
Inductive Admission := Accepted | Removing | Refused (e : AdmissionError).

Definition push_task (T : DownloadTask.t) (σ : Store) : Store :=
  set_list (list_ σ ++ [length (tasksH σ)]) (set_tasksH (tasksH σ ++ [T]) σ).

(** [pushAndCheckList].  [exists_] is what [fs.existsSync] answers for
    the destination and [confirmed] what the user answers to [confirm]. *)
Definition pushAndCheckList (T : DownloadTask.t) (exists_ confirmed : bool)
    (σ : Store) : Store * Admission :=
  match findTask (DownloadTask.url T) σ with
  | Some _ => (σ, Refused DuplicateTask)
  | None =>
      if exists_ then
        if confirmed then (push_cont (KFsRemove T) σ, Removing)
        else (σ, Refused AdmissionCancelled)
      else (push_task T σ, Accepted)
  end.

(** [addTask].  The source does not await the promise of
    [pushAndCheckList]; its state is returned here beside the store. *)
Definition addTask (options : AddOptions) (exists_ confirmed : bool)
    (σ : Store) : Store * Admission :=
  let name := if isSpecificFile (o_name options)
              then restoreFileName (o_name options) else o_name options in
  let task := DownloadTask.mk (o_url options) None name (dir σ)
                (o_pwd options) (o_merge options) [] in
  pushAndCheckList task exists_ confirmed σ.

(** ** Events *)

(** How an awaited promise settles. *)
Inductive Settlement :=
| Rejects
| Listing (r : ShareListing)
| DirectUrl (u : string)
| Fulfils
| Response (headers : Headers).

(** The rest of the suspended frame [k] when its promise settles with
    [r]; [None] when the promise [k] awaits cannot settle so.  A pipeline
    whose signal is aborted rejects.  When [lsShare] answers, [initTask]
    runs to its end and the [start] that awaits it resumes in the same
    turn of the event loop, with nothing of the store in between: the
    two are one step.  [start] does not call [canStart] again there. *)
Definition resume (k : Cont) (r : Settlement) (σ : Store) : option Store :=
  match k, r with
  | KLsShare t, Listing ls => Some (run_subtask t (initTask t ls σ))
  | KLsShare _, Rejects => Some σ
  | KDownUrl t l _, DirectUrl u => Some (push_cont (KEnsureDir t l u) σ)
  | KEnsureDir t l u, Fulfils => Some (push_cont (KCreateStream t l u) σ)
  | KCreateStream t l _, Response h => Some (on_stream t l h σ)
  | KPipeline t l c, Fulfils =>
      if default false (ctrlH σ !! c) then None else Some (on_piped t l σ)
  | KDownUrl t l _, Rejects
  | KEnsureDir t l _, Rejects
  | KCreateStream t l _, Rejects
  | KPipeline t l _, Rejects => Some (on_failure t l σ)
  | KFsRemove T, Fulfils => Some (push_task T σ)
  | KFsRemove _, Rejects => Some σ
  | _, _ => None
  end.

Inductive Event :=
| AddTask (options : AddOptions) (exists_ confirmed : bool)
| Start (url : string) (reset : bool)
| StartAll
| Pause (url : string)
| PauseAll
| Remove (url : string)
| RemoveAll
| RemoveAllFinish
| Autorun
| Settle (k : nat) (r : Settlement)
| DownloadProgress (k : nat) (transferred : Z).

Definition step (e : Event) (σ : Store) : Store :=
  match e with
  | AddTask o ex cf => fst (addTask o ex cf σ)
  | Start url reset => start url reset σ
  | StartAll => startAll σ
  | Pause url => fst (pause url σ)
  | PauseAll => pauseAll σ
  | Remove url => remove url σ
  | RemoveAll => removeAll σ
  | RemoveAllFinish => removeAllFinish σ
  | Autorun => autorun σ
  | Settle k r =>
      match conts σ !! k with
      | Some (Some c) =>
          default σ (resume c r (set_conts (<[k := None]> (conts σ)) σ))
      | _ => σ
      end
  | DownloadProgress k n =>
      match conts σ !! k with
      | Some (Some (KPipeline _ l _)) => write_resolve l n σ
      | _ => σ
      end
  end.

Definition run (es : list Event) (σ : Store) : Store :=
  foldl (fun σ' e => step e σ') σ es.

(** The stores the program can be in. *)
Inductive reachable : Store -> Prop :=
| reachable_initial d : reachable (initial d)
| reachable_step σ e : reachable σ -> reachable (step e σ).

End WithUtil.

(** ** Opening a stream: the challenge page *)

(** What [Matcher.parseValidateAjax] extracts from a validation page. *)
Module AjaxData.
Record t := mk {
  url : string;
  type : string;
  data : list (string * string)
}.
End AjaxData.

(** [Matcher.parseValidateAjax] of [common/core/matcher], and the
    resolution [new URL(relative, base)]. *)
Class Web := {
  parseValidateAjax : string -> option AjaxData.t;
  newURL : string -> string -> string
}.

(** The request [http.share(url, {method, headers: {referer}, form})]. *)
Record ValidationRequest := mkRequest {
  rq_url : string;
  rq_method : string;
  rq_referer : string;
  rq_form : list (string * string)
}.

(** The first of the events [response] and [error] a stream emits.  An
    [error] that follows a [response] is not part of the model. *)
Variant StreamEvent :=
| OnResponse (stream : nat) (headers : Headers)
| OnError (message : string).

(** What [createStream] asks of the network and of time.  [ShareJson]
    answers [None] when the request or the decoding of its body fails. *)
Variant httpE : Type -> Type :=
| ShareStream (url : string) : httpE StreamEvent
| StreamToText (stream : nat) : httpE string
| Delay (ms : Z) : httpE unit
| ShareJson (rq : ValidationRequest) : httpE (option string).

Variant StreamFailure :=
| ChallengeParseError
| TransportError (message : string).

(** How the promise of [createStream] settles. *)
Variant Opening :=
| Resolved (stream : nat)
| Rejected (e : StreamFailure).

Section WithWeb.
Context {W : Web}.

(** One call of [createStream]: [inl url] is the call
    [resolve(this.createStream(url))], which hands the settling of the
    promise over to the next call.  A failure inside the [async]
    listener of [response] is caught by nobody and leaves the promise
    pending for ever. *)
Definition createStream_call (downloadUrl : string)
    : itree httpE (string + Opening) :=
  ITree.bind (ITree.trigger (ShareStream downloadUrl)) (fun ev =>
    match ev with
    | OnError message => Ret (inr (Rejected (TransportError message)))
    | OnResponse stream headers =>
        if bool_decide (headers !! "content-type" = Some "text/html") then
          ITree.bind (ITree.trigger (StreamToText stream)) (fun html =>
            match parseValidateAjax html with
            | Some ajaxData =>
                ITree.bind (ITree.trigger (Delay 2000)) (fun _ =>
                ITree.bind
                  (ITree.trigger
                     (ShareJson
                        (mkRequest (newURL (AjaxData.url ajaxData) downloadUrl)
                           (AjaxData.type ajaxData) downloadUrl
                           (AjaxData.data ajaxData))))
                  (fun answer =>
                     match answer with
                     | Some url => Ret (inl url)
                     | None => ITree.spin
                     end))
            | None => Ret (inr (Rejected ChallengeParseError))
            end)
        else Ret (inr (Resolved stream))
    end).

Definition createStream : string -> itree httpE Opening :=
  ITree.iter createStream_call.

End WithWeb.

(** A remote service that answers each request the same way every time,
    and the record of what was asked of it. *)
Record Remote := mkRemote {
  remote_stream : string -> StreamEvent;
  remote_text : nat -> string;
  remote_json : ValidationRequest -> option string
}.

Variant Action :=
| Opened (url : string)
| ReadText (stream : nat)
| Waited (ms : Z)
| Submitted (rq : ValidationRequest).

Definition against (R : Remote)
    : httpE ~> Monads.stateT (list Action) (itree void1) :=
  fun _ e log =>
    match e with
    | ShareStream url => Ret ((log ++ [Opened url])%list, remote_stream R url)
    | StreamToText stream => Ret ((log ++ [ReadText stream])%list, remote_text R stream)
    | Delay ms => Ret ((log ++ [Waited ms])%list, tt)
    | ShareJson rq => Ret ((log ++ [Submitted rq])%list, remote_json R rq)
    end.

(** ** Post-processing on a file system *)

Inductive node := File (content : string) | Directory.

(** A file system: what each path names. *)
Abbreviation FS := (gmap string node).

(** [p] is [d] or lies below it. *)
Definition under (d p : string) : bool :=
  bool_decide (p = d) || String.prefix (d +:+ "/") p.

(** The name of [p] inside [d] when [p] is an entry of [d]. *)
Definition entry_name (d p : string) : option string :=
  if String.prefix (d +:+ "/") p then
    let n := String.substring (String.length d + 1)
               (String.length p - (String.length d + 1)) p in
    match String.index 0 "/" n with
    | None => if bool_decide (n = "") then None else Some n
    | Some _ => None
    end
  else None.

Definition name_le (a b : string) : Prop := String.leb a b = true.

#[global] Instance name_le_dec : RelDecision name_le.
Proof. intros a b. unfold name_le. apply _. Defined.

(** The order in which the file system answers the names of a directory.
    Node documents none for [fs.readdir]: the names come as the platform
    hands them over.  The order is therefore a parameter of the model;
    whatever it is, the listing has exactly the names it is given. *)
Class ListingOrder := {
  listing_order : list string -> list string;
  listing_order_Permutation : ∀ names, listing_order names ≡ₚ names
}.

(** [fs.readdir]: the names of the entries of a directory, in the order
    of the file system. *)
Definition readdir `{ListingOrder} (d : string) (fs : FS) : option (list string) :=
  match fs !! d with
  | Some Directory =>
      Some (listing_order (omap (entry_name d) (map_to_list fs).*1))
  | _ => None
  end.

Definition readFile (p : string) (fs : FS) : option string :=
  match fs !! p with
  | Some (File c) => Some c
  | _ => None
  end.

(** [fs.remove] of fs-extra: the path and all below it, without error
    when there is nothing. *)
Definition fs_remove (d : string) (fs : FS) : FS :=
  filter (fun kv => under d kv.1 = false) fs.

(** Where a path of the tree [a] lands when [a] is renamed to [b]. *)
Definition relocate (a b p : string) : string :=
  if under a p
  then b +:+ String.substring (String.length a) (String.length p - String.length a) p
  else p.

(** [fs.rename]: fails when the source is missing or the destination is
    a directory with entries; otherwise the tree moves. *)
Definition fs_rename (a b : string) (fs : FS) : option FS :=
  match fs !! a with
  | None => None
  | Some _ =>
      if bool_decide (filter (fun kv => under b kv.1 = true ∧ kv.1 ≠ b) fs = ∅)
      then Some (kmap (relocate a b) (filter (fun kv => under a kv.1 = true) fs)
                 ∪ filter (fun kv => under a kv.1 = false) (delete b fs))
      else None
  end.

(** Modelled from the spec: [merge] of [common/merge], which is not part
    of this file's source.  The spec has it "concatenate them in that
    order into a single output file": the files are read in the order
    given and the concatenation of their contents is written to the
    target. *)
Definition merge (files : list string) (target : string) (fs : FS) : option FS :=
  cs ← mapM (fun p => readFile p fs) files;
  Some (<[target := File (String.concat "" cs)]> fs).

(** [dir.replace(/\.downloading$/, '')] *)
Definition strip_downloading (d : string) : string :=
  let suffix := ".downloading" in
  let n := String.length d - String.length suffix in
  if bool_decide (String.substring n (String.length suffix) d = suffix)
  then String.substring 0 n d else d.

(** [onTaskFinish]; [None] when the promise it returns rejects.  The
    pause [delay(200)] before the removal changes no file.  The source
    expects the listing of the temporary directory to be in order
    ("会自动排序") and passes it on to [merge] as it comes: it sorts
    nothing itself. *)
Definition onTaskFinish `{ListingOrder} (task : DownloadTask.t)
    (subs : list DownloadSubTask.t) (fs : FS) : option FS :=
  let resolveTarget := path_join (DownloadTask.dir task) (DownloadTask.name task) in
  let subTask := hd_error (DownloadTask.tasks task) ≫= (subs !!.) in
  match DownloadTask.urlType task with
  | Some URLType.file =>
      s ← subTask;
      fs1 ← fs_rename (path_join (DownloadSubTask.dir s) (DownloadSubTask.name s))
             resolveTarget fs;
      Some (fs_remove (DownloadSubTask.dir s) fs1)
  | Some URLType.folder =>
      s ← subTask;
      if default false (DownloadTask.merge task) then
        names ← readdir (DownloadSubTask.dir s) fs;
        fs1 ← merge (path_join (DownloadSubTask.dir s) <$> names) resolveTarget fs;
        Some (fs_remove (DownloadSubTask.dir s) fs1)
      else
        fs_rename (DownloadSubTask.dir s) (strip_downloading (DownloadSubTask.dir s)) fs
  | None => Some fs
  end.

(** ** The status machine of the spec *)

(** The six transitions the spec allows. *)
Definition edge (a b : TaskStatus.t) : bool :=
  match a, b with
  | TaskStatus.ready, TaskStatus.pending
  | TaskStatus.pending, TaskStatus.finish
  | TaskStatus.pending, TaskStatus.pause
  | TaskStatus.pending, TaskStatus.fail
  | TaskStatus.pause, TaskStatus.ready
  | TaskStatus.fail, TaskStatus.ready => true
  | _, _ => false
  end.

(** The six transitions and the one from ready to pause. *)
Definition edge_or_hold (a b : TaskStatus.t) : bool :=
  edge a b ||
  match a, b with
  | TaskStatus.ready, TaskStatus.pause => true
  | _, _ => false
  end.

(** An assignment of a status that is no change, or a change along [E]. *)
Definition along (E : TaskStatus.t -> TaskStatus.t -> bool)
    (w : nat * TaskStatus.t * TaskStatus.t) : Prop :=
  w.1.2 = w.2 ∨ E w.1.2 w.2 = true.

(** [σ'] comes from [σ] by assignments of statuses that all satisfy [P]. *)
Definition logs (P : nat * TaskStatus.t * TaskStatus.t -> Prop)
    (σ σ' : Store) : Prop :=
  ∃ new, statusLog σ' = statusLog σ ++ new ∧ Forall P new.

(** The subtask a suspended transfer works on. *)
Definition cont_sub (k : Cont) : option nat :=
  match k with
  | KDownUrl _ l _ | KEnsureDir _ l _ | KCreateStream _ l _ | KPipeline _ l _ =>
      Some l
  | KLsShare _ | KFsRemove _ => None
  end.

(** When [e] settles a promise a transfer awaits, the subtask of that
    transfer is still pending. *)
Definition settles_pending (σ : Store) (e : Event) : Prop :=
  match e with
  | Settle k _ =>
      match conts σ !! k with
      | Some (Some c) =>
          match cont_sub c with
          | Some l => sub_status σ l = Some TaskStatus.pending
          | None => True
          end
      | _ => True
      end
  | _ => True
  end.

(** The transitions an event may make: [pause] and [pauseAll] also hold
    back a ready subtask. *)
Definition edges_of (e : Event) : TaskStatus.t -> TaskStatus.t -> bool :=
  match e with
  | Pause _ | PauseAll => edge_or_hold
  | _ => edge
  end.

(** The assignment [w] is among those that lead from [σ] to [σ']. *)
Definition logged (w : nat * TaskStatus.t * TaskStatus.t) (σ σ' : Store) : Prop :=
  ∃ new, statusLog σ' = statusLog σ ++ new ∧ w ∈ new.

(** Ready or pending: where a resumed subtask is once its task has been
    started again. *)
Definition resumed (σ : Store) (l : nat) : Prop :=
  sub_status σ l = Some TaskStatus.ready ∨
  sub_status σ l = Some TaskStatus.pending.

(** The assignment [w] takes a failed subtask back to ready. *)
Definition resets_failed (w : nat * TaskStatus.t * TaskStatus.t) : Prop :=
  w.1.2 = TaskStatus.fail ∧ w.2 = TaskStatus.ready.

(** The call [start(url, true)], which asks for a reset. *)
Definition is_reset_start (e : Event) : bool :=
  match e with
  | Start _ true => true
  | _ => false
  end.

(** ** Scenarios *)

(** Helpers that leave names alone and read a size as a number of bytes. *)
Definition plain_util : Util := {|
  isSpecificFile := fun _ => false;
  restoreFileName := fun s => s;
  sizeToByte := fun s => toNumber (Some s)
|}.

Definition attachment : Headers :=
  {[ "content-disposition" := "attachment"; "content-length" := "42" ]}.

(** A shared file whose listing has the one entry of the share itself. *)
Definition file_url : string := "https://share/abc".

Definition file_listing : ShareListing :=
  mkListing "doc.pdf" URLType.file [mkEntry file_url "doc.pdf" "10" None].

(** The file is admitted, picked up by the queue check, listed,
    addressed, and its directory made: [createStream] is awaited. *)
Definition file_opening : list Event :=
  [ AddTask (mkOptions "doc.pdf" file_url None None) false false;
    Autorun;
    Settle 0 (Listing file_listing);
    Settle 1 (DirectUrl "https://cdn/abc");
    Settle 2 Fulfils ].

(** ... and the stream is open: the pipeline is awaited. *)
Definition file_piping : list Event :=
  file_opening ++ [ Settle 3 (Response attachment) ].

Definition file_opening_store : Store :=
  @run plain_util file_opening (initial "/downloads").

Definition file_piping_store : Store :=
  @run plain_util file_piping (initial "/downloads").

(** A shared folder of two files. *)
Definition folder_url : string := "https://share/folder".

Definition folder_listing : ShareListing :=
  mkListing "album" URLType.folder
    [ mkEntry "https://share/file1" "a.jpg" "10" None;
      mkEntry "https://share/file2" "b.jpg" "20" None ].

(** The folder is admitted and listed: its first file is pending, its
    second ready. *)
Definition folder_listed : list Event :=
  [ AddTask (mkOptions "album" folder_url None None) false false;
    Autorun;
    Settle 0 (Listing folder_listing) ].

(** ... and the stream of the first file is open. *)
Definition folder_piping : list Event :=
  folder_listed ++
  [ Settle 1 (DirectUrl "https://cdn/file1");
    Settle 2 Fulfils;
    Settle 3 (Response attachment) ].

Definition folder_listed_store : Store :=
  @run plain_util folder_listed (initial "/downloads").

Definition folder_piping_store : Store :=
  @run plain_util folder_piping (initial "/downloads").

(** The address of the file cannot be resolved: the subtask fails. *)
Definition file_failed_store : Store :=
  @run plain_util
    [ AddTask (mkOptions "doc.pdf" file_url None None) false false;
      Autorun;
      Settle 0 (Listing file_listing);
      Settle 1 Rejects ]
    (initial "/downloads").

(** The listing of a share that is one file under the share's own url. *)
Definition one_file (u : string) : ShareListing :=
  mkListing "part" URLType.file [mkEntry u "part" "10" None].

(** Four shares are admitted and started together; their listings
    arrive afterwards. *)
Definition four_started : list Event :=
  [ AddTask (mkOptions "a" "https://share/a" None None) false false;
    AddTask (mkOptions "b" "https://share/b" None None) false false;
    AddTask (mkOptions "c" "https://share/c" None None) false false;
    AddTask (mkOptions "d" "https://share/d" None None) false false;
    StartAll;
    Settle 0 (Listing (one_file "https://share/a"));
    Settle 1 (Listing (one_file "https://share/b"));
    Settle 2 (Listing (one_file "https://share/c"));
    Settle 3 (Listing (one_file "https://share/d")) ].

Definition four_started_store : Store :=
  @run plain_util four_started (initial "/downloads").

(** A validation page and the service behind it. *)
Definition challenge_web : Web := {|
  parseValidateAjax := fun html =>
    if bool_decide (html = "<form action=/ajax.php>")
    then Some (AjaxData.mk "/ajax.php" "post" [("sign", "s1")])
    else None;
  newURL := fun relative base => "https://cdn" +:+ relative
|}.

Definition challenge_remote : Remote := {|
  remote_stream := fun url =>
    if bool_decide (url = "https://cdn/abc")
    then OnResponse 0 {[ "content-type" := "text/html" ]}
    else OnResponse 1 {[ "content-type" := "application/octet-stream" ]};
  remote_text := fun _ => "<form action=/ajax.php>";
  remote_json := fun _ => Some "https://cdn/real"
|}.

(** A merged folder whose three parts are downloaded. *)
Definition parts_dir : string := "/downloads/big.downloading".


Definition parts_subs : list DownloadSubTask.t :=
  [ DownloadSubTask.mk "https://share/p1" None parts_dir "p1" 1
      TaskStatus.finish (Num 1);
    DownloadSubTask.mk "https://share/p2" None parts_dir "p2" 1
      TaskStatus.finish (Num 1);
    DownloadSubTask.mk "https://share/p3" None parts_dir "p3" 1
      TaskStatus.finish (Num 1) ].

Definition parts_fs : FS :=
  {[ "/downloads" := Directory;
     parts_dir := Directory;
     parts_dir +:+ "/p3" := File "C";
     parts_dir +:+ "/p1" := File "A";
     parts_dir +:+ "/p2" := File "B" ]}.

(** A file system that lists a directory by name, and one that lists it
    from the last name to the first. *)
Definition by_name : ListingOrder :=
  {| listing_order := merge_sort name_le;
     listing_order_Permutation := merge_sort_Permutation name_le |}.

Definition descending : ListingOrder :=
  {| listing_order := fun names => reverse (merge_sort name_le names);
     listing_order_Permutation := fun names =>
       transitivity (reverse_Permutation (merge_sort name_le names))
                    (merge_sort_Permutation name_le names) |}.

(** No controller the signal map holds is aborted, and no controller is
    held under two keys. *)
Definition clean (σ : Store) : Prop :=
  ∀ u c, taskSignal σ !! u = Some c ->
         ctrlH σ !! c = Some false ∧
         ∀ u', taskSignal σ !! u' = Some c -> u' = u.

(** [σ'] has the signal map and the controllers of [σ]. *)
Definition same_signals (σ σ' : Store) : Prop :=
  taskSignal σ' = taskSignal σ ∧ ctrlH σ' = ctrlH σ.

(** A subtask that is neither ready nor pending: nothing is started for
    it and it does not count in the queue. *)
Definition idle (σ : Store) (l : nat) : Prop :=
  sub_status σ l ≠ Some TaskStatus.ready ∧
  sub_status σ l ≠ Some TaskStatus.pending.

(** No two places of the active list hold tasks of the same url. *)
Definition unique_urls (σ : Store) : Prop :=
  NoDup (task_url σ <$> list_ σ).

(** One turn of the loop of [pauseAll]. *)
Definition pauseAll_turn (σ : Store) (t : nat) : Store :=
  match task_url σ t with
  | Some u => (pause u σ).1
  | None => σ
  end.

(** The request [createStream] submits for the validation action
    [ajaxData] found on the page of [downloadUrl]. *)
Definition validation (W : Web) (ajaxData : AjaxData.t) (downloadUrl : string)
    : ValidationRequest :=
  mkRequest (newURL (AjaxData.url ajaxData) downloadUrl)
    (AjaxData.type ajaxData) downloadUrl (AjaxData.data ajaxData).

(** [opens W R url trace o]: against the service [R], starting at [url],
    the answers lead through finitely many validation pages to the
    settling [o], and [trace] lists the requests on the way. *)
Inductive opens (W : Web) (R : Remote) : string -> list Action -> Opening -> Prop :=
| opens_error url message :
    remote_stream R url = OnError message ->
    opens W R url [Opened url] (Rejected (TransportError message))
| opens_file url stream headers :
    remote_stream R url = OnResponse stream headers ->
    headers !! "content-type" ≠ Some "text/html" ->
    opens W R url [Opened url] (Resolved stream)
| opens_unparsed url stream headers :
    remote_stream R url = OnResponse stream headers ->
    headers !! "content-type" = Some "text/html" ->
    parseValidateAjax (remote_text R stream) = None ->
    opens W R url [Opened url; ReadText stream] (Rejected ChallengeParseError)
| opens_challenge url stream headers ajaxData url' trace o :
    remote_stream R url = OnResponse stream headers ->
    headers !! "content-type" = Some "text/html" ->
    parseValidateAjax (remote_text R stream) = Some ajaxData ->
    remote_json R (validation W ajaxData url) = Some url' ->
    opens W R url' trace o ->
    opens W R url
      ([Opened url; ReadText stream; Waited 2000;
        Submitted (validation W ajaxData url)] ++ trace) o.

(** The number of streams a trace opens. *)
Definition opened (trace : list Action) : nat :=
  length (List.filter (fun a => match a with Opened _ => true | _ => false end)
            trace).

(** The number of validation requests a trace submits. *)
Definition submitted (trace : list Action) : nat :=
  length (List.filter (fun a => match a with Submitted _ => true | _ => false end)
            trace).

(** ** Further scenarios *)

(** The folder is admitted and its listing asked for. *)
Definition folder_asked_store : Store :=
  @run plain_util (take 2 folder_listed) (initial "/downloads").

(** Both files of the folder are paused. *)
Definition folder_paused_store : Store :=
  (pause folder_url folder_listed_store).1.

(** The address of the first file of the folder cannot be resolved and
    the folder is paused: the first file is failed, the second paused. *)
Definition folder_failed_store : Store :=
  @run plain_util (folder_listed ++ [ Settle 1 Rejects; Pause folder_url ])
    (initial "/downloads").

(** The first file of the folder is downloaded; the second is pending,
    its address asked for. *)
Definition folder_half_store : Store :=
  @run plain_util (folder_piping ++ [ Settle 4 Fulfils ]) (initial "/downloads").

(** ... and the folder is paused: the first file is finished, the second
    paused. *)
Definition folder_half_paused_store : Store :=
  @step plain_util (Pause folder_url) folder_half_store.

(** The folder is paused and the file is admitted behind it. *)
Definition blocked_store : Store :=
  @run plain_util
    (folder_listed ++
     [ Pause folder_url;
       AddTask (mkOptions "doc.pdf" file_url None None) false false ])
    (initial "/downloads").

(** A service whose validation fails. *)
Definition failing_remote : Remote := {|
  remote_stream := remote_stream challenge_remote;
  remote_text := remote_text challenge_remote;
  remote_json := fun _ => None
|}.

(** A service whose validation hands back the url it was asked for. *)
Definition circular_remote : Remote := {|
  remote_stream := fun _ => OnResponse 0 {[ "content-type" := "text/html" ]};
  remote_text := remote_text challenge_remote;
  remote_json := fun rq => Some (rq_referer rq)
|}.

(** A folder of three files that is not to be merged. *)
Definition album_task : DownloadTask.t :=
  DownloadTask.mk "https://share/big" (Some URLType.folder) "big" "/downloads"
    None None [0; 1; 2].

(** * Properties *)

(** ** Searching lists *)

Lemma find_none_Forall {A} (f : A -> bool) (l : list A) :
  Forall (fun x => f x = false) l -> List.find f l = None.
Proof.
  induction 1 as [|x l Hx _ IH]; simpl; [done|]. by rewrite Hx.
Qed.

Lemma find_is_Some {A} (f : A -> bool) (l : list A) (x : A) :
  x ∈ l -> f x = true -> is_Some (List.find f l).
Proof.
  induction 1 as [x l|x y l _ IH]; simpl; intros Hf.
  - rewrite Hf. by eexists.
  - destruct (f y); [by eexists|auto].
Qed.

Lemma has_status_true σ st l :
  has_status σ st l = true <-> sub_status σ l = Some st.
Proof. unfold has_status. by rewrite bool_decide_eq_true. Qed.

Lemma has_status_false σ st l :
  has_status σ st l = false <-> sub_status σ l ≠ Some st.
Proof. unfold has_status. by rewrite bool_decide_eq_false. Qed.

(** ** Guards of [start] *)

(** C10.  [start(url)] returns with the whole store as it was (tasks,
    subtask statuses, signal map and suspended frames) when no task of
    the active list has that url, and when the task has subtasks none of
    which is ready and [reset] is false. *)
Theorem start_guard_returns (σ : Store) (url : string) :
  (findTask url σ = None ∨
   ∃ t, findTask url σ = Some t ∧ subtasks σ t ≠ [] ∧
        Forall (fun l => sub_status σ l ≠ Some TaskStatus.ready) (subtasks σ t)) ->
  start url false σ = σ.
Proof.
  unfold start. intros [-> | (t & -> & Hne & Hall)]; [done|].
  destruct (canStart σ); simpl; [|done].
  rewrite bool_decide_eq_false_2 by done.
  unfold run_subtask. rewrite find_none_Forall; [done|].
  eapply Forall_impl; [exact Hall|]. intros l Hl. by apply has_status_false.
Qed.

(** X18.  When three or more subtasks are pending, [start] changes
    nothing, with or without reset: no paused or failed subtask is taken
    back to ready and no listing is asked for. *)
Lemma start_at_capacity (σ : Store) (url : string) (reset : bool) :
  3 <= queue σ -> start url reset σ = σ.
Proof.
  intros Hq. unfold start, canStart. destruct (findTask url σ); [|done].
  by rewrite (proj2 (Nat.ltb_ge _ _) Hq).
Qed.

(** ** Admission *)

(** C6.  [addTask] with a url that a task of the active list already
    has is refused with [DuplicateTask], and the store is left as it
    was: nothing is appended and no object changes. *)
Theorem addTask_duplicate_refused `{Util} (σ : Store) (options : AddOptions)
    (exists_ confirmed : bool) :
  (∃ t, t ∈ list_ σ ∧ task_url σ t = Some (o_url options)) ->
  addTask options exists_ confirmed σ = (σ, Refused DuplicateTask).
Proof.
  intros (t & Hin & Hurl). unfold addTask, pushAndCheckList. simpl.
  destruct (find_is_Some
              (fun t' => bool_decide (task_url σ t' = Some (o_url options)))
              (list_ σ) t Hin) as [t' Ht'].
  { by apply bool_decide_eq_true. }
  unfold findTask. by rewrite Ht'.
Qed.

(** ** Response headers *)

Lemma subsH_on_stream (t l : nat) (h : Headers) (σ : Store) :
  subsH (on_stream t l h σ) =
  subsH (if truthy (h !! "content-disposition")
         then write_size l (toNumber (h !! "content-length")) σ else σ).
Proof. unfold on_stream. by destruct (task_url _ t). Qed.

(** C8, as the code has it.  When the stream is opened, the subtask's
    size becomes [Number(headers['content-length'])] exactly when the
    headers carry a non-empty content-disposition, whether or not they
    carry a content-length; without a content-disposition the subtask is
    left as it was. *)
Theorem stream_sets_size `{Util} (σ : Store) (k t l : nat) (url : string)
    (headers : Headers) (s : DownloadSubTask.t) :
  conts σ !! k = Some (Some (KCreateStream t l url)) ->
  subsH σ !! l = Some s ->
  subsH (step (Settle k (Response headers)) σ) !! l =
    Some (if truthy (headers !! "content-disposition")
          then DownloadSubTask.set_size (toNumber (headers !! "content-length")) s
          else s).
Proof.
  intros Hk Hl. unfold step. rewrite Hk. unfold resume, default, id. cbn [from_option].
  rewrite subsH_on_stream.
  destruct (truthy _); simpl; [|done].
  unfold write_size. simpl. rewrite Hl. simpl.
  apply list_lookup_insert_eq. by eapply lookup_lt_Some.
Qed.

(** ** The history of status assignments *)

Section Logs.
Context (P : nat * TaskStatus.t * TaskStatus.t -> Prop).

Lemma logs_refl σ : logs P σ σ.
Proof. exists []. by rewrite app_nil_r. Qed.

Lemma logs_same σ σ' : statusLog σ' = statusLog σ -> logs P σ σ'.
Proof. intros E. exists []. by rewrite app_nil_r. Qed.

Lemma logs_trans σ1 σ2 σ3 : logs P σ1 σ2 -> logs P σ2 σ3 -> logs P σ1 σ3.
Proof.
  intros (n1 & E1 & F1) (n2 & E2 & F2). exists (n1 ++ n2).
  split; [by rewrite E2, E1, app_assoc|by apply Forall_app].
Qed.

Lemma logs_write_status σ l st :
  (∀ a, sub_status σ l = Some a -> P (l, a, st)) ->
  logs P σ (write_status l st σ).
Proof.
  intros HP. unfold write_status.
  destruct (subsH σ !! l) as [s|] eqn:E; [|apply logs_refl].
  eexists. split; [done|]. constructor; [|done].
  apply HP. unfold sub_status. by rewrite E.
Qed.

Lemma logs_foldl {B} (f : Store -> B -> Store) (ls : list B) σ :
  (∀ σ' x, logs P σ' (f σ' x)) -> logs P σ (foldl f σ ls).
Proof.
  intros Hf. revert σ. induction ls as [|x ls IH]; intros σ; simpl.
  - apply logs_refl.
  - eapply logs_trans; [apply Hf|apply IH].
Qed.

End Logs.

Lemma statusLog_abortTask l σ : statusLog (abortTask l σ).1 = statusLog σ.
Proof.
  unfold abortTask. destruct (sub_url σ l); [|done].
  by destruct (taskSignal σ !! _).
Qed.

Lemma statusLog_abortAll ls σ : statusLog (abortAll ls σ) = statusLog σ.
Proof.
  unfold abortAll. revert σ. induction ls as [|l ls IH]; intros σ; simpl; [done|].
  by rewrite IH, statusLog_abortTask.
Qed.

Lemma statusLog_remove url σ : statusLog (remove url σ) = statusLog σ.
Proof.
  unfold remove. simpl. destruct (findTask url σ); [|done].
  apply statusLog_abortAll.
Qed.

Lemma logs_run_subtask P t σ :
  P = along edge ∨ P = along edge_or_hold ->
  logs P σ (run_subtask t σ).
Proof.
  intros HP. unfold run_subtask.
  destruct (List.find _ _) as [l|] eqn:E; [|apply logs_refl].
  apply find_some in E as [_ E]. apply has_status_true in E.
  eapply logs_trans; [|by apply logs_same].
  apply logs_write_status. intros a Ha. rewrite E in Ha. injection Ha as <-.
  destruct HP as [-> | ->]; by right.
Qed.

Lemma logs_reset_sub P σ l :
  P = along edge ∨ P = along edge_or_hold ->
  logs P σ (reset_sub σ l).
Proof.
  intros HP. unfold reset_sub.
  destruct (has_status σ TaskStatus.pause l) eqn:E1; simpl.
  - apply has_status_true in E1. apply logs_write_status.
    intros a Ha. rewrite E1 in Ha. injection Ha as <-.
    destruct HP as [-> | ->]; by right.
  - destruct (has_status σ TaskStatus.fail l) eqn:E2; [|apply logs_refl].
    apply has_status_true in E2. apply logs_write_status.
    intros a Ha. rewrite E2 in Ha. injection Ha as <-.
    destruct HP as [-> | ->]; by right.
Qed.

Lemma logs_start P url reset σ :
  P = along edge ∨ P = along edge_or_hold ->
  logs P σ (start url reset σ).
Proof.
  intros HP. unfold start.
  destruct (findTask url σ) as [t|]; [|apply logs_refl].
  destruct (canStart σ); simpl; [|apply logs_refl].
  case_bool_decide; [by apply logs_same|].
  eapply logs_trans; [|by apply logs_run_subtask].
  destruct reset; [|apply logs_refl].
  apply logs_foldl. intros. by apply logs_reset_sub.
Qed.

Lemma logs_pause_sub acc l :
  logs (along edge_or_hold) acc.1 (pause_sub acc l).1.
Proof.
  destruct acc as [σ ok]. unfold pause_sub.
  pose proof (statusLog_abortTask l (write_status l TaskStatus.pause σ)) as Ha.
  destruct (abortTask l (write_status l TaskStatus.pause σ)) as [σ' r].
  cbn [fst] in *.
  destruct (has_status σ TaskStatus.ready l) eqn:E1; cbn [orb fst].
  - eapply logs_trans; [|by apply logs_same].
    apply has_status_true in E1. apply logs_write_status.
    intros a Hs. rewrite E1 in Hs. injection Hs as <-. by right.
  - destruct (has_status σ TaskStatus.pending l) eqn:E2; [|apply logs_refl].
    cbn [fst]. eapply logs_trans; [|by apply logs_same].
    apply has_status_true in E2. apply logs_write_status.
    intros a Hs. rewrite E2 in Hs. injection Hs as <-. by right.
Qed.

Lemma logs_pause url σ : logs (along edge_or_hold) σ (pause url σ).1.
Proof.
  unfold pause. destruct (findTask url σ) as [t|]; [|apply logs_refl].
  generalize (subtasks σ t). intros ls.
  change σ with (σ, true).1 at 1. generalize (σ, true).
  induction ls as [|l ls IH]; intros acc; simpl; [apply logs_refl|].
  eapply logs_trans; [apply logs_pause_sub|apply IH].
Qed.

Lemma logs_pauseAll σ : logs (along edge_or_hold) σ (pauseAll σ).
Proof.
  unfold pauseAll. apply logs_foldl. intros σ' t.
  destruct (task_url σ' t); [apply logs_pause|apply logs_refl].
Qed.

Lemma logs_startAll_task σ t : logs (along edge) σ (startAll_task σ t).
Proof.
  unfold startAll_task.
  set (σ1 := foldl _ σ _).
  assert (logs (along edge) σ σ1) as H1.
  { apply logs_foldl. intros σ' l. unfold resume_sub.
    destruct (has_status σ' TaskStatus.pause l) eqn:E; [|apply logs_refl].
    apply has_status_true in E. apply logs_write_status.
    intros a Ha. rewrite E in Ha. injection Ha as <-. by right. }
  destruct (task_url σ1 t); [|done].
  eapply logs_trans; [done|]. apply logs_start. by left.
Qed.

Lemma logs_startAll σ : logs (along edge) σ (startAll σ).
Proof. apply logs_foldl, logs_startAll_task. Qed.

Lemma logs_autorun σ : logs (along edge) σ (autorun σ).
Proof.
  unfold autorun, checkTask. destruct (list_ σ); [apply logs_refl|].
  destruct (List.find _ _); [|apply logs_refl].
  destruct (truthy _); [|apply logs_refl]. apply logs_start. by left.
Qed.

Lemma statusLog_removeAll σ : statusLog (removeAll σ) = statusLog σ.
Proof.
  unfold removeAll. simpl. generalize (list_ σ). intros ls. revert σ.
  induction ls as [|t ls IH]; intros σ; simpl; [done|].
  by rewrite IH, statusLog_abortAll.
Qed.

Lemma statusLog_push_task T σ : statusLog (push_task T σ) = statusLog σ.
Proof. done. Qed.

Lemma statusLog_addTask `{Util} o ex cf σ :
  statusLog (addTask o ex cf σ).1 = statusLog σ.
Proof.
  unfold addTask, pushAndCheckList. destruct (findTask _ σ); [done|].
  by destruct ex, cf.
Qed.

Lemma statusLog_initTask `{Util} t r σ : statusLog (initTask t r σ) = statusLog σ.
Proof. unfold initTask. by destruct (tasksH σ !! t). Qed.

Lemma logs_on_failure t l σ :
  sub_status σ l = Some TaskStatus.pending ->
  logs (along edge) σ (on_failure t l σ).
Proof.
  intros E. unfold on_failure.
  destruct (match task_url σ t with Some u => _ | None => _ end);
    apply logs_write_status; intros a Ha; rewrite E in Ha;
    injection Ha as <-; by right.
Qed.

Lemma statusLog_on_stream t l h σ : statusLog (on_stream t l h σ) = statusLog σ.
Proof.
  unfold on_stream. destruct (truthy _); simpl.
  - destruct (task_url _ t); simpl; unfold write_size;
      by destruct (subsH σ !! l).
  - by destruct (task_url _ t).
Qed.

Lemma logs_on_finish_task info task σ :
  logs (along edge) σ (on_finish_task info task σ).
Proof.
  unfold on_finish_task.
  assert (∀ σ1, logs (along edge) σ1
            (if forallb (has_status σ1 TaskStatus.finish) (subtasks σ1 info)
             then on_finish info σ1
             else match task_url σ1 info with
                  | Some u => start u false σ1
                  | None => σ1
                  end)) as Hrest.
  { intros σ1. destruct (forallb _ _).
    - apply logs_same. unfold on_finish. simpl.
      destruct (task_url _ info); [|done]. by rewrite statusLog_remove.
    - destruct (task_url σ1 info); [|apply logs_refl].
      apply logs_start. by left. }
  destruct (sub_url σ task) as [u|]; [|apply Hrest].
  eapply logs_trans; [|apply Hrest]. by apply logs_same.
Qed.

Lemma logs_on_piped t l σ :
  sub_status σ l = Some TaskStatus.pending ->
  logs (along edge) σ (on_piped t l σ).
Proof.
  intros E. unfold on_piped.
  eapply logs_trans; [|apply logs_on_finish_task].
  apply logs_write_status. intros a Ha. rewrite E in Ha.
  injection Ha as <-. by right.
Qed.

Lemma logs_resume `{Util} c r σ σ' :
  (∀ l, cont_sub c = Some l -> sub_status σ l = Some TaskStatus.pending) ->
  resume c r σ = Some σ' ->
  logs (along edge) σ σ'.
Proof.
  intros Hl Hr.
  destruct c, r; simpl in Hr; try discriminate; simpl in Hl;
    try (injection Hr as <-);
    try (by apply logs_same);
    try (apply logs_on_failure; by apply Hl).
  - eapply logs_trans; [apply logs_same, statusLog_initTask|].
    apply logs_run_subtask. by left.
  - apply logs_same, statusLog_on_stream.
  - destruct (default false _); [done|]. injection Hr as <-.
    apply logs_on_piped. by apply Hl.
Qed.

(** C3, as the code has it.  Every assignment of a status that a
    public operation or a settling transfer makes is a change along one
    of the six transitions of the spec, or, in [pause] and [pauseAll]
    only, from ready to pause; provided that a transfer that settles
    finds its subtask still pending. *)
Theorem step_follows_edges `{Util} (σ : Store) (e : Event) :
  settles_pending σ e ->
  ∃ new, statusLog (step e σ) = statusLog σ ++ new ∧
         Forall (along (edges_of e)) new.
Proof.
  intros Hlive. change (logs (along (edges_of e)) σ (step e σ)).
  destruct e; simpl.
  - apply logs_same, statusLog_addTask.
  - apply logs_start. by left.
  - apply logs_startAll.
  - apply logs_pause.
  - apply logs_pauseAll.
  - apply logs_same, statusLog_remove.
  - apply logs_same, statusLog_removeAll.
  - by apply logs_same.
  - apply logs_autorun.
  - simpl in Hlive.
    destruct (conts σ !! k) as [[c|]|] eqn:Ek; try apply logs_refl.
    destruct (resume c r _) as [σ'|] eqn:Er; simpl; [|apply logs_refl].
    eapply logs_trans; [|eapply logs_resume; [|exact Er]].
    + by apply logs_same.
    + intros l Hc. rewrite Hc in Hlive. exact Hlive.
  - destruct (conts σ !! k) as [[[]|]|]; try apply logs_refl.
    apply logs_same. unfold write_resolve. by destruct (subsH σ !! sub).
Qed.

(** ** Statuses under the operations *)

Lemma logged_logs w P σ1 σ2 σ3 :
  logged w σ1 σ2 -> logs P σ2 σ3 -> logged w σ1 σ3.
Proof.
  intros (n1 & E1 & F1) (n2 & E2 & _). exists (n1 ++ n2).
  split; [by rewrite E2, E1, app_assoc|]. apply elem_of_app. by left.
Qed.

Lemma logs_logged w P σ1 σ2 σ3 :
  logs P σ1 σ2 -> logged w σ2 σ3 -> logged w σ1 σ3.
Proof.
  intros (n1 & E1 & _) (n2 & E2 & F2). exists (n1 ++ n2).
  split; [by rewrite E2, E1, app_assoc|]. apply elem_of_app. by right.
Qed.

Lemma tasksH_write_status l st σ : tasksH (write_status l st σ) = tasksH σ.
Proof. unfold write_status. by destruct (subsH σ !! l). Qed.

Lemma sub_status_write_ne l l' st σ :
  l ≠ l' -> sub_status (write_status l' st σ) l = sub_status σ l.
Proof.
  intros Hne. unfold write_status, sub_status.
  destruct (subsH σ !! l'); [|done]. simpl.
  by rewrite list_lookup_insert_ne.
Qed.

Lemma sub_status_write_eq l a st σ :
  sub_status σ l = Some a -> sub_status (write_status l st σ) l = Some st.
Proof.
  unfold write_status, sub_status. intros Ha.
  destruct (subsH σ !! l) as [s|] eqn:E; [|done]. simpl.
  rewrite list_lookup_insert_eq; [done|]. by eapply lookup_lt_Some.
Qed.

Lemma logged_write_status l a st σ :
  sub_status σ l = Some a -> logged (l, a, st) σ (write_status l st σ).
Proof.
  unfold write_status, sub_status. intros Ha.
  destruct (subsH σ !! l) as [s|] eqn:E; [|done]. simpl in *.
  injection Ha as <-. eexists. split; [done|]. apply list_elem_of_singleton. done.
Qed.

Lemma tasksH_run_subtask t σ : tasksH (run_subtask t σ) = tasksH σ.
Proof.
  unfold run_subtask. destruct (List.find _ _); [|done].
  simpl. apply tasksH_write_status.
Qed.

Lemma tasksH_start url σ : tasksH (start url false σ) = tasksH σ.
Proof.
  unfold start. destruct (findTask url σ); [|done].
  destruct (canStart σ); simpl; [|done].
  case_bool_decide; [done|]. apply tasksH_run_subtask.
Qed.

Lemma tasksH_resume_sub σ l : tasksH (resume_sub σ l) = tasksH σ.
Proof.
  unfold resume_sub. destruct (has_status _ _ _); [|done].
  apply tasksH_write_status.
Qed.

Lemma tasksH_foldl_resume_sub ls σ : tasksH (foldl resume_sub σ ls) = tasksH σ.
Proof.
  revert σ. induction ls as [|l ls IH]; intros σ; simpl; [done|].
  by rewrite IH, tasksH_resume_sub.
Qed.

Lemma tasksH_startAll_task σ t : tasksH (startAll_task σ t) = tasksH σ.
Proof.
  unfold startAll_task. destruct (task_url _ t).
  - by rewrite tasksH_start, tasksH_foldl_resume_sub.
  - apply tasksH_foldl_resume_sub.
Qed.

Lemma subtasks_startAll_task σ t t' :
  subtasks (startAll_task σ t) t' = subtasks σ t'.
Proof. unfold subtasks. by rewrite tasksH_startAll_task. Qed.

(** [start] without reset touches only a ready subtask, and makes it
    pending. *)
Lemma sub_status_run_subtask t σ l a :
  sub_status σ l = Some a -> a ≠ TaskStatus.ready ->
  sub_status (run_subtask t σ) l = Some a.
Proof.
  intros Ha Hne. unfold run_subtask.
  destruct (List.find _ _) as [l'|] eqn:E; [|done].
  apply find_some in E as [_ E]. apply has_status_true in E.
  change (sub_status (write_status l' TaskStatus.pending σ) l = Some a).
  rewrite sub_status_write_ne; [done|]. intros ->. congruence.
Qed.

Lemma sub_status_start url σ l a :
  sub_status σ l = Some a -> a ≠ TaskStatus.ready ->
  sub_status (start url false σ) l = Some a.
Proof.
  intros Ha Hne. unfold start. destruct (findTask url σ); [|done].
  destruct (canStart σ); simpl; [|done].
  case_bool_decide; [done|]. by apply sub_status_run_subtask.
Qed.

Lemma resumed_start url σ l : resumed σ l -> resumed (start url false σ) l.
Proof.
  intros [Hr | Hp]; [|right; by apply sub_status_start].
  unfold start. destruct (findTask url σ) as [t|]; [|by left].
  destruct (canStart σ); simpl; [|by left].
  case_bool_decide; [by left|].
  unfold run_subtask. destruct (List.find _ _) as [l'|]; [|by left].
  change (resumed (write_status l' TaskStatus.pending σ) l).
  destruct (decide (l = l')) as [<-|Hne].
  - right. by eapply sub_status_write_eq.
  - left. by rewrite sub_status_write_ne.
Qed.

(** The inner loop of [startAll] touches only paused subtasks of the
    list it runs over, and makes them ready. *)
Lemma sub_status_resume_keeps ls σ l a :
  sub_status σ l = Some a -> a ≠ TaskStatus.pause ∨ l ∉ ls ->
  sub_status (foldl resume_sub σ ls) l = Some a.
Proof.
  revert σ. induction ls as [|l' ls IH]; intros σ Ha Hk; simpl; [done|].
  apply IH.
  - unfold resume_sub. destruct (has_status σ TaskStatus.pause l') eqn:E; [|done].
    apply has_status_true in E. rewrite sub_status_write_ne; [done|].
    intros ->. destruct Hk as [Hk|Hk]; [congruence|].
    apply Hk. by left.
  - destruct Hk as [Hk|Hk]; [by left|right].
    intros Hin. apply Hk. by right.
Qed.

Lemma logs_foldl_resume_sub ls σ : logs (along edge) σ (foldl resume_sub σ ls).
Proof.
  apply logs_foldl. intros σ' l. unfold resume_sub.
  destruct (has_status σ' TaskStatus.pause l) eqn:E; [|apply logs_refl].
  apply has_status_true in E. apply logs_write_status.
  intros a Ha. rewrite E in Ha. injection Ha as <-. by right.
Qed.

Lemma sub_status_resume_paused ls σ l :
  sub_status σ l = Some TaskStatus.pause -> l ∈ ls ->
  sub_status (foldl resume_sub σ ls) l = Some TaskStatus.ready ∧
  logged (l, TaskStatus.pause, TaskStatus.ready) σ (foldl resume_sub σ ls).
Proof.
  revert σ. induction ls as [|l' ls IH]; intros σ Hp Hin; simpl.
  { by apply elem_of_nil in Hin. }
  destruct (decide (l = l')) as [<-|Hne].
  - assert (resume_sub σ l = write_status l TaskStatus.ready σ) as ->.
    { unfold resume_sub. by rewrite (proj2 (has_status_true _ _ _) Hp). }
    split.
    + apply sub_status_resume_keeps; [by eapply sub_status_write_eq|by left].
    + eapply logged_logs; [by apply logged_write_status|].
      apply logs_foldl_resume_sub.
  - apply elem_of_cons in Hin as [?|Hin]; [done|].
    assert (sub_status (resume_sub σ l') l = Some TaskStatus.pause) as Hp'.
    { unfold resume_sub. destruct (has_status _ _ _); [|done].
      by rewrite sub_status_write_ne. }
    destruct (IH _ Hp' Hin) as [Hs Hl]. split; [done|].
    eapply logs_logged; [|exact Hl].
    apply (logs_foldl_resume_sub [l']).
Qed.

Lemma startAll_task_keeps σ t l a :
  sub_status σ l = Some a ->
  a ≠ TaskStatus.ready ->
  a ≠ TaskStatus.pause ∨ l ∉ subtasks σ t ->
  sub_status (startAll_task σ t) l = Some a.
Proof.
  intros Ha Hr Hk. unfold startAll_task.
  pose proof (sub_status_resume_keeps (subtasks σ t) σ l a Ha Hk) as H1.
  destruct (task_url _ t); [|done]. by apply sub_status_start.
Qed.

Lemma startAll_task_resumed σ t l :
  resumed σ l -> resumed (startAll_task σ t) l.
Proof.
  intros Hr. unfold startAll_task.
  assert (resumed (foldl resume_sub σ (subtasks σ t)) l) as H1.
  { destruct Hr as [Hr|Hr]; [left|right];
      (apply sub_status_resume_keeps; [done|by left]). }
  destruct (task_url _ t); [|done]. by apply resumed_start.
Qed.

Lemma startAll_task_resumes σ t l :
  sub_status σ l = Some TaskStatus.pause -> l ∈ subtasks σ t ->
  resumed (startAll_task σ t) l ∧
  logged (l, TaskStatus.pause, TaskStatus.ready) σ (startAll_task σ t).
Proof.
  intros Hp Hin. unfold startAll_task.
  destruct (sub_status_resume_paused _ _ _ Hp Hin) as [Hs Hl].
  destruct (task_url _ t); [|split; [by left|done]].
  split.
  - apply resumed_start. by left.
  - eapply logged_logs; [exact Hl|]. apply (logs_start (along edge)). by left.
Qed.

Lemma foldl_startAll_task_keeps ls σ l a :
  sub_status σ l = Some a ->
  a ≠ TaskStatus.ready -> a ≠ TaskStatus.pause ->
  sub_status (foldl startAll_task σ ls) l = Some a.
Proof.
  revert σ. induction ls as [|t ls IH]; intros σ Ha Hr Hp; simpl; [done|].
  apply IH; [|done..]. apply startAll_task_keeps; [done..|by left].
Qed.

Lemma foldl_startAll_task_resumed ls σ l :
  resumed σ l -> resumed (foldl startAll_task σ ls) l.
Proof.
  revert σ. induction ls as [|t ls IH]; intros σ Hr; simpl; [done|].
  by apply IH, startAll_task_resumed.
Qed.

Lemma foldl_startAll_task_resumes ls σ l :
  sub_status σ l = Some TaskStatus.pause ->
  (∃ t, t ∈ ls ∧ l ∈ subtasks σ t) ->
  resumed (foldl startAll_task σ ls) l ∧
  logged (l, TaskStatus.pause, TaskStatus.ready) σ (foldl startAll_task σ ls).
Proof.
  revert σ. induction ls as [|t ls IH]; intros σ Hp (t' & Ht' & Hin); simpl.
  { by apply elem_of_nil in Ht'. }
  destruct (decide (l ∈ subtasks σ t)) as [Hl|Hl].
  - destruct (startAll_task_resumes _ _ _ Hp Hl) as [Hr Hlog]. split.
    + by apply foldl_startAll_task_resumed.
    + eapply logged_logs; [exact Hlog|].
      apply logs_foldl. intros. apply logs_startAll_task.
  - apply elem_of_cons in Ht' as [->|Ht']; [done|].
    destruct (IH (startAll_task σ t)) as [Hr Hlog].
    + apply startAll_task_keeps; [done|done|by right].
    + exists t'. by rewrite subtasks_startAll_task.
    + split; [done|]. eapply logs_logged; [apply logs_startAll_task|exact Hlog].
Qed.

(** ** [startAll] *)

(** *** Assignments that spare a failed subtask *)

Abbreviation spares_failed := (fun w => ¬ resets_failed w).

Lemma spares_write_status σ l st :
  st ≠ TaskStatus.ready -> logs spares_failed σ (write_status l st σ).
Proof.
  intros Hst. apply logs_write_status. intros a _ [_ Hr]. by apply Hst.
Qed.

Lemma spares_run_subtask t σ : logs spares_failed σ (run_subtask t σ).
Proof.
  unfold run_subtask. destruct (List.find _ _) as [l|]; [|apply logs_refl].
  eapply logs_trans; [|by apply logs_same]. by apply spares_write_status.
Qed.

Lemma spares_start url σ : logs spares_failed σ (start url false σ).
Proof.
  unfold start. destruct (findTask url σ) as [t|]; [|apply logs_refl].
  destruct (canStart σ); simpl; [|apply logs_refl].
  case_bool_decide; [by apply logs_same|]. apply spares_run_subtask.
Qed.

Lemma spares_pause_sub acc l : logs spares_failed acc.1 (pause_sub acc l).1.
Proof.
  destruct acc as [σ ok]. unfold pause_sub.
  pose proof (statusLog_abortTask l (write_status l TaskStatus.pause σ)) as Ha.
  destruct (abortTask l (write_status l TaskStatus.pause σ)) as [σ' r].
  cbn [fst] in *.
  destruct (_ || _); cbn [fst]; [|apply logs_refl].
  eapply logs_trans; [|by apply logs_same]. by apply spares_write_status.
Qed.

Lemma spares_pause url σ : logs spares_failed σ (pause url σ).1.
Proof.
  unfold pause. destruct (findTask url σ) as [t|]; [|apply logs_refl].
  generalize (subtasks σ t). intros ls.
  change σ with (σ, true).1 at 1. generalize (σ, true).
  induction ls as [|l ls IH]; intros acc; simpl; [apply logs_refl|].
  eapply logs_trans; [apply spares_pause_sub|apply IH].
Qed.

Lemma spares_pauseAll σ : logs spares_failed σ (pauseAll σ).
Proof.
  unfold pauseAll. apply logs_foldl. intros σ' t.
  destruct (task_url σ' t); [apply spares_pause|apply logs_refl].
Qed.

(** The one assignment of ready outside [start]: the subtask it is made
    to is paused. *)
Lemma spares_resume_sub σ l : logs spares_failed σ (resume_sub σ l).
Proof.
  unfold resume_sub.
  destruct (has_status σ TaskStatus.pause l) eqn:E; [|apply logs_refl].
  apply has_status_true in E. apply logs_write_status.
  intros a Ha [Hf _]. rewrite E in Ha. injection Ha as <-. discriminate Hf.
Qed.

Lemma spares_startAll_task σ t : logs spares_failed σ (startAll_task σ t).
Proof.
  unfold startAll_task.
  set (σ1 := foldl _ σ _).
  assert (logs spares_failed σ σ1) as H1
    by (apply logs_foldl; intros; apply spares_resume_sub).
  destruct (task_url σ1 t); [|done].
  eapply logs_trans; [done|]. apply spares_start.
Qed.

Lemma spares_startAll σ : logs spares_failed σ (startAll σ).
Proof. apply logs_foldl, spares_startAll_task. Qed.

Lemma spares_autorun σ : logs spares_failed σ (autorun σ).
Proof.
  unfold autorun, checkTask. destruct (list_ σ); [apply logs_refl|].
  destruct (List.find _ _); [|apply logs_refl].
  destruct (truthy _); [|apply logs_refl]. apply spares_start.
Qed.

Lemma spares_on_failure t l σ : logs spares_failed σ (on_failure t l σ).
Proof.
  unfold on_failure.
  destruct (match task_url σ t with Some u => _ | None => _ end);
    by apply spares_write_status.
Qed.

Lemma spares_on_finish_task info task σ :
  logs spares_failed σ (on_finish_task info task σ).
Proof.
  unfold on_finish_task.
  assert (∀ σ1, logs spares_failed σ1
            (if forallb (has_status σ1 TaskStatus.finish) (subtasks σ1 info)
             then on_finish info σ1
             else match task_url σ1 info with
                  | Some u => start u false σ1
                  | None => σ1
                  end)) as Hrest.
  { intros σ1. destruct (forallb _ _).
    - apply logs_same. unfold on_finish. simpl.
      destruct (task_url _ info); [|done]. by rewrite statusLog_remove.
    - destruct (task_url σ1 info); [|apply logs_refl]. apply spares_start. }
  destruct (sub_url σ task) as [u|]; [|apply Hrest].
  eapply logs_trans; [|apply Hrest]. by apply logs_same.
Qed.

Lemma spares_on_piped t l σ : logs spares_failed σ (on_piped t l σ).
Proof.
  unfold on_piped. eapply logs_trans; [|apply spares_on_finish_task].
  by apply spares_write_status.
Qed.

Lemma spares_resume `{Util} c r σ σ' :
  resume c r σ = Some σ' -> logs spares_failed σ σ'.
Proof.
  intros Hr.
  destruct c, r; simpl in Hr; try discriminate;
    try (injection Hr as <-);
    try (by apply logs_same);
    try apply spares_on_failure.
  - eapply logs_trans; [apply logs_same, statusLog_initTask|].
    apply spares_run_subtask.
  - apply logs_same, statusLog_on_stream.
  - destruct (default false _); [done|]. injection Hr as <-.
    apply spares_on_piped.
Qed.

Lemma spares_step `{Util} (σ : Store) (e : Event) :
  is_reset_start e = false -> logs spares_failed σ (step e σ).
Proof.
  intros He. destruct e; simpl.
  - apply logs_same, statusLog_addTask.
  - destruct reset; [discriminate He|]. apply spares_start.
  - apply spares_startAll.
  - apply spares_pause.
  - apply spares_pauseAll.
  - apply logs_same, statusLog_remove.
  - apply logs_same, statusLog_removeAll.
  - by apply logs_same.
  - apply spares_autorun.
  - destruct (conts σ !! k) as [[c|]|] eqn:Ek; try apply logs_refl.
    destruct (resume c r _) as [σ'|] eqn:Er; simpl; [|apply logs_refl].
    eapply logs_trans; [|eapply spares_resume; exact Er]. by apply logs_same.
  - destruct (conts σ !! k) as [[[]|]|]; try apply logs_refl.
    apply logs_same. unfold write_resolve. by destruct (subsH σ !! sub).
Qed.

(** [start(url, true)] is the call that does take a failed subtask back
    to ready. *)
Lemma foldl_reset_sub_logs_failed ls σ l :
  l ∈ ls -> sub_status σ l = Some TaskStatus.fail ->
  logged (l, TaskStatus.fail, TaskStatus.ready) σ (foldl reset_sub σ ls).
Proof.
  revert σ. induction ls as [|l' ls IH]; intros σ Hin Hf; cbn [foldl].
  { by apply elem_of_nil in Hin. }
  assert (∀ ks σ0, logs (along edge) σ0 (foldl reset_sub σ0 ks)) as Hrest
    by (intros; apply logs_foldl; intros; apply logs_reset_sub; by left).
  destruct (decide (l = l')) as [<-|Hne].
  - assert (reset_sub σ l = write_status l TaskStatus.ready σ) as ->.
    { unfold reset_sub. rewrite (proj2 (has_status_true _ _ _) Hf).
      by rewrite orb_true_r. }
    eapply logged_logs; [by apply logged_write_status|apply Hrest].
  - apply elem_of_cons in Hin as [?|Hin]; [done|].
    assert (sub_status (reset_sub σ l') l = Some TaskStatus.fail) as Hf'.
    { unfold reset_sub. destruct (_ || _); [|done].
      by rewrite sub_status_write_ne. }
    eapply logs_logged; [apply (Hrest [l'])|]. by apply IH.
Qed.

(** C5, as the code has it.  [startAll] takes every paused subtask of
    every task of the active list back to ready, from where the [start]
    it then calls may take it on to pending; a failed subtask stays
    failed.  No call and no settling transfer other than [start] with
    [reset = true] assigns ready to a failed subtask, and that call does
    so for every failed subtask of its task when it gets past its
    guards. *)
Theorem startAll_resumes_paused `{Util} :
  (∀ (σ : Store) (t l : nat),
     t ∈ list_ σ -> l ∈ subtasks σ t ->
     (sub_status σ l = Some TaskStatus.pause ->
        logged (l, TaskStatus.pause, TaskStatus.ready) σ (startAll σ) ∧
        resumed (startAll σ) l) ∧
     (sub_status σ l = Some TaskStatus.fail ->
        sub_status (startAll σ) l = Some TaskStatus.fail)) ∧
  (∀ (σ : Store) (e : Event),
     is_reset_start e = false ->
     ∃ new, statusLog (step e σ) = statusLog σ ++ new ∧
            Forall (fun w => ¬ resets_failed w) new) ∧
  (∀ (σ : Store) (url : string) (t l : nat),
     findTask url σ = Some t -> canStart σ = true ->
     l ∈ subtasks σ t -> sub_status σ l = Some TaskStatus.fail ->
     logged (l, TaskStatus.fail, TaskStatus.ready) σ (step (Start url true) σ)).
Proof.
  split; [|split].
  - intros σ t l Ht Hl. unfold startAll. split.
    + intros Hp.
      destruct (foldl_startAll_task_resumes (list_ σ) σ l Hp) as [Hr Hlog];
        [by exists t|done].
    + intros Hf. by apply foldl_startAll_task_keeps.
  - intros σ e He. by apply spares_step.
  - intros σ url t l Ht Hcan Hl Hf. simpl. unfold start.
    rewrite Ht, Hcan. cbn [negb].
    rewrite bool_decide_eq_false_2 by (intros E; rewrite E in Hl; by apply elem_of_nil in Hl).
    eapply logged_logs; [by apply foldl_reset_sub_logs_failed|].
    apply (logs_run_subtask (along edge)). by left.
Qed.

(** ** The challenge page *)

Section Challenge.
Context {W : Web} (R : Remote).

(** Running one request of [createStream] against the remote service. *)
Lemma against_trigger {T} (e : httpE T) (log : list Action) :
  eutt eq (interp_state (against R) (ITree.trigger e) log) (against R T e log).
Proof. apply interp_state_trigger. Qed.

Lemma createStream_unfold (url : string) (log : list Action) :
  eutt eq (interp_state (against R) (createStream url) log)
    (ITree.bind (interp_state (against R) (createStream_call url) log)
       (fun st => match st.2 with
                  | inl url' => interp_state (against R) (createStream url') st.1
                  | inr r => Ret (st.1, r)
                  end)).
Proof.
  unfold createStream at 1. rewrite unfold_iter, interp_state_bind.
  apply eutt_eq_bind. intros [log' [url'|r]]; simpl.
  - rewrite interp_state_tau, tau_eutt. reflexivity.
  - rewrite interp_state_ret. reflexivity.
Qed.

(** A response that is no validation page settles the call. *)
Lemma createStream_call_binary (url : string) (log : list Action)
    (stream : nat) (headers : Headers) :
  remote_stream R url = OnResponse stream headers ->
  headers !! "content-type" ≠ Some "text/html" ->
  eutt eq (interp_state (against R) (createStream_call url) log)
    (Ret (log ++ [Opened url], inr (Resolved stream))).
Proof.
  intros Hs Hct. unfold createStream_call.
  rewrite interp_state_bind, against_trigger. cbn [against].
  rewrite bind_ret_l. cbn [fst snd]. rewrite Hs.
  rewrite bool_decide_eq_false_2 by done.
  rewrite interp_state_ret. reflexivity.
Qed.

(** A validation page whose action is parsed and whose submission
    answers with a url hands over to a call with that url. *)
Lemma createStream_call_challenge (url : string) (log : list Action)
    (stream : nat) (headers : Headers) (ajaxData : AjaxData.t) (url' : string) :
  remote_stream R url = OnResponse stream headers ->
  headers !! "content-type" = Some "text/html" ->
  parseValidateAjax (remote_text R stream) = Some ajaxData ->
  remote_json R (mkRequest (newURL (AjaxData.url ajaxData) url)
                   (AjaxData.type ajaxData) url (AjaxData.data ajaxData))
    = Some url' ->
  eutt eq (interp_state (against R) (createStream_call url) log)
    (Ret (log ++ [Opened url; ReadText stream; Waited 2000;
                  Submitted (mkRequest (newURL (AjaxData.url ajaxData) url)
                               (AjaxData.type ajaxData) url
                               (AjaxData.data ajaxData))],
          inl url')).
Proof.
  intros Hs Hct Hp Hj. unfold createStream_call.
  rewrite interp_state_bind, against_trigger. cbn [against].
  rewrite bind_ret_l. cbn [fst snd]. rewrite Hs.
  rewrite bool_decide_eq_true_2 by done.
  rewrite interp_state_bind, against_trigger. cbn [against].
  rewrite bind_ret_l. cbn [fst snd]. rewrite Hp.
  rewrite interp_state_bind, against_trigger. cbn [against].
  rewrite bind_ret_l. cbn [fst snd].
  rewrite interp_state_bind, against_trigger. cbn [against].
  rewrite bind_ret_l. cbn [fst snd]. rewrite Hj.
  rewrite interp_state_ret. rewrite <- !app_assoc. reflexivity.
Qed.

(** A validation page without a parseable action rejects the call. *)
Lemma createStream_call_unparsed (url : string) (log : list Action)
    (stream : nat) (headers : Headers) :
  remote_stream R url = OnResponse stream headers ->
  headers !! "content-type" = Some "text/html" ->
  parseValidateAjax (remote_text R stream) = None ->
  eutt eq (interp_state (against R) (createStream_call url) log)
    (Ret (log ++ [Opened url; ReadText stream],
          inr (Rejected ChallengeParseError))).
Proof.
  intros Hs Hct Hp. unfold createStream_call.
  rewrite interp_state_bind, against_trigger. cbn [against].
  rewrite bind_ret_l. cbn [fst snd]. rewrite Hs.
  rewrite bool_decide_eq_true_2 by done.
  rewrite interp_state_bind, against_trigger. cbn [against].
  rewrite bind_ret_l. cbn [fst snd]. rewrite Hp.
  rewrite interp_state_ret. rewrite <- !app_assoc. reflexivity.
Qed.

(** C7.  When the first response is a [text/html] page: if the page
    holds a parseable validation action, [createStream] reads it, waits
    2000 ms, submits the validation request with the challenged url as
    referer and, the answer being a url whose response is not
    [text/html], opens that url and resolves with its stream, having
    opened two streams in all; if the page holds no parseable action it
    rejects with [ChallengeParseError]. *)
Theorem createStream_bypasses_challenge (url : string) (stream : nat)
    (headers : Headers) :
  remote_stream R url = OnResponse stream headers ->
  headers !! "content-type" = Some "text/html" ->
  match parseValidateAjax (remote_text R stream) with
  | Some ajaxData =>
      let rq := mkRequest (newURL (AjaxData.url ajaxData) url)
                  (AjaxData.type ajaxData) url (AjaxData.data ajaxData) in
      ∀ url' stream' headers',
        remote_json R rq = Some url' ->
        remote_stream R url' = OnResponse stream' headers' ->
        headers' !! "content-type" ≠ Some "text/html" ->
        eutt eq (interp_state (against R) (createStream url) [])
          (Ret ([Opened url; ReadText stream; Waited 2000; Submitted rq;
                 Opened url'], Resolved stream'))
  | None =>
      eutt eq (interp_state (against R) (createStream url) [])
        (Ret ([Opened url; ReadText stream], Rejected ChallengeParseError))
  end.
Proof.
  intros Hs Hct.
  destruct (parseValidateAjax (remote_text R stream)) as [ajaxData|] eqn:Hp.
  - intros rq url' stream' headers' Hj Hs' Hct'.
    rewrite createStream_unfold.
    rewrite (createStream_call_challenge url [] stream headers ajaxData url')
      by done.
    rewrite bind_ret_l. cbn [fst snd].
    rewrite createStream_unfold.
    rewrite (createStream_call_binary url' _ stream' headers') by done.
    rewrite bind_ret_l. cbn [fst snd]. reflexivity.
  - rewrite createStream_unfold.
    rewrite (createStream_call_unparsed url [] stream headers) by done.
    rewrite bind_ret_l. cbn [fst snd]. reflexivity.
Qed.

End Challenge.

(** ** Post-processing *)

Lemma name_le_iff (a b : string) :
  name_le a b <-> a = b ∨ String_as_OT.lt a b.
Proof.
  unfold name_le, String.leb.
  pose proof (String_as_OT.cmp_eq a b) as He.
  pose proof (String_as_OT.cmp_lt a b) as Hl.
  unfold String_as_OT.cmp in *.
  destruct (String.compare a b) eqn:E; split; intros Hx.
  - left. by apply He.
  - done.
  - right. by apply Hl.
  - done.
  - done.
  - destruct Hx as [Hx|Hx]; [by apply He in Hx|by apply Hl in Hx].
Qed.

#[global] Instance name_le_total : Total name_le.
Proof. intros a b. apply String.leb_total. Qed.

#[global] Instance name_le_trans : Transitive name_le.
Proof.
  intros a b c Hab Hbc. apply name_le_iff in Hab, Hbc. apply name_le_iff.
  destruct Hab as [->|Hab]; [done|]. destruct Hbc as [<-|Hbc]; [by right|].
  right. by eapply String_as_OT.lt_trans.
Qed.

(** [readdir] lists exactly the entries of the directory, whatever the
    order of the file system. *)
Lemma readdir_lists `{ListingOrder} (d : string) (fs : FS) (names : list string) :
  readdir d fs = Some names ->
  ∀ n, n ∈ names <-> ∃ p, is_Some (fs !! p) ∧ entry_name d p = Some n.
Proof.
  unfold readdir. destruct (fs !! d) as [[]|]; try done.
  intros [= <-] n. rewrite listing_order_Permutation, list_elem_of_omap.
  split.
  - intros (p & Hp & Hn). exists p. split; [|done].
    apply list_elem_of_fmap in Hp as ([p' v] & -> & Hpv).
    apply elem_of_map_to_list in Hpv. by eexists.
  - intros (p & [v Hv] & Hn). exists p. split; [|done].
    apply list_elem_of_fmap. exists (p, v). split; [done|].
    by apply elem_of_map_to_list.
Qed.

(** Only a file system that lists by name answers the names in order. *)
Lemma readdir_by_name_sorted (d : string) (fs : FS) (names : list string) :
  @readdir by_name d fs = Some names -> StronglySorted name_le names.
Proof.
  unfold readdir. destruct (fs !! d) as [[]|]; try done.
  intros [= <-]. apply StronglySorted_merge_sort; apply _.
Qed.




(** ** Controllers in the signal map *)

Lemma same_signals_refl σ : same_signals σ σ.
Proof. done. Qed.

Lemma same_signals_trans σ1 σ2 σ3 :
  same_signals σ1 σ2 -> same_signals σ2 σ3 -> same_signals σ1 σ3.
Proof. intros [E1 F1] [E2 F2]. split; congruence. Qed.

Lemma same_signals_clean σ σ' : same_signals σ σ' -> clean σ -> clean σ'.
Proof. intros [E F] Hc u c. rewrite E, F. apply Hc. Qed.

Lemma same_signals_foldl {B} (f : Store -> B -> Store) (ls : list B) σ :
  (∀ σ' x, same_signals σ' (f σ' x)) -> same_signals σ (foldl f σ ls).
Proof.
  intros Hf. revert σ. induction ls as [|x ls IH]; intros σ; simpl; [done|].
  eapply same_signals_trans; [apply Hf|apply IH].
Qed.

Lemma same_signals_write_status l st σ : same_signals σ (write_status l st σ).
Proof. unfold write_status. by destruct (subsH σ !! l). Qed.

Lemma same_signals_write_size l n σ : same_signals σ (write_size l n σ).
Proof. unfold write_size. by destruct (subsH σ !! l). Qed.

Lemma same_signals_write_resolve l n σ : same_signals σ (write_resolve l n σ).
Proof. unfold write_resolve. by destruct (subsH σ !! l). Qed.

Lemma same_signals_run_subtask t σ : same_signals σ (run_subtask t σ).
Proof.
  unfold run_subtask. destruct (List.find _ _) as [l|]; [|done].
  apply (same_signals_write_status l TaskStatus.pending σ).
Qed.

Lemma same_signals_start url reset σ : same_signals σ (start url reset σ).
Proof.
  unfold start. destruct (findTask url σ); [|done].
  destruct (canStart σ); simpl; [|done]. case_bool_decide; [done|].
  eapply same_signals_trans; [|apply same_signals_run_subtask].
  destruct reset; [|done]. apply same_signals_foldl. intros σ' l.
  unfold reset_sub. destruct (_ || _); [|done]. apply same_signals_write_status.
Qed.

Lemma same_signals_startAll σ : same_signals σ (startAll σ).
Proof.
  apply same_signals_foldl. intros σ' t. unfold startAll_task.
  assert (same_signals σ' (foldl resume_sub σ' (subtasks σ' t))) as H1.
  { apply same_signals_foldl. intros σ'' l. unfold resume_sub.
    destruct (has_status _ _ _); [|done]. apply same_signals_write_status. }
  destruct (task_url _ t); [|done].
  eapply same_signals_trans; [exact H1|apply same_signals_start].
Qed.

Lemma same_signals_autorun σ : same_signals σ (autorun σ).
Proof.
  unfold autorun, checkTask. destruct (list_ σ); [done|].
  destruct (List.find _ _); [|done]. destruct (truthy _); [|done].
  apply same_signals_start.
Qed.

Lemma same_signals_addTask `{Util} o ex cf σ :
  same_signals σ (addTask o ex cf σ).1.
Proof.
  unfold addTask, pushAndCheckList. destruct (findTask _ σ); [done|].
  by destruct ex, cf.
Qed.

Lemma same_signals_initTask `{Util} t r σ : same_signals σ (initTask t r σ).
Proof. unfold initTask. by destruct (tasksH σ !! t). Qed.

(** Aborting a controller takes it out of the map. *)
Lemma clean_abortTask l σ : clean σ -> clean (abortTask l σ).1.
Proof.
  intros Hc. unfold abortTask. destruct (sub_url σ l) as [u|]; [|done].
  destruct (taskSignal σ !! u) as [c|] eqn:E; [|done].
  intros u' c'. simpl. intros Hu'.
  apply lookup_delete_Some in Hu' as [Hne Hu'].
  destruct (Hc u' c' Hu') as [Hf Hinj]. split.
  - rewrite list_lookup_insert_ne; [done|].
    intros ->. apply Hne. by apply Hinj.
  - intros u'' Hu''. apply lookup_delete_Some in Hu'' as [_ Hu'']. by apply Hinj.
Qed.

Lemma clean_abortAll ls σ : clean σ -> clean (abortAll ls σ).
Proof.
  unfold abortAll. revert σ. induction ls as [|l ls IH]; intros σ Hc; simpl; [done|].
  by apply IH, clean_abortTask.
Qed.

Lemma clean_set_list v σ : clean σ -> clean (set_list v σ).
Proof. done. Qed.

Lemma clean_remove url σ : clean σ -> clean (remove url σ).
Proof.
  intros Hc. unfold remove. apply clean_set_list.
  destruct (findTask url σ); [|done]. by apply clean_abortAll.
Qed.

Lemma clean_removeAll σ : clean σ -> clean (removeAll σ).
Proof.
  intros Hc. unfold removeAll. apply clean_set_list.
  generalize (list_ σ). intros ls. revert σ Hc.
  induction ls as [|t ls IH]; intros σ Hc; simpl; [done|].
  by apply IH, clean_abortAll.
Qed.

Lemma clean_pause_sub acc l : clean acc.1 -> clean (pause_sub acc l).1.
Proof.
  destruct acc as [σ ok]. unfold pause_sub. simpl. intros Hc.
  pose proof (clean_abortTask l (write_status l TaskStatus.pause σ)) as Ha.
  destruct (abortTask l (write_status l TaskStatus.pause σ)) as [σ' r].
  simpl in Ha. destruct (_ || _); [|done]. simpl. apply Ha.
  eapply same_signals_clean; [apply same_signals_write_status|done].
Qed.

Lemma clean_pause url σ : clean σ -> clean (pause url σ).1.
Proof.
  unfold pause. destruct (findTask url σ) as [t|]; [|done].
  generalize (subtasks σ t). intros ls.
  change σ with (σ, true).1 at 1. generalize (σ, true).
  induction ls as [|l ls IH]; intros acc Hc; simpl; [done|].
  by apply IH, clean_pause_sub.
Qed.

Lemma clean_pauseAll σ : clean σ -> clean (pauseAll σ).
Proof.
  unfold pauseAll. generalize (list_ σ). intros ls. revert σ.
  induction ls as [|t ls IH]; intros σ Hc; simpl; [done|].
  apply IH. destruct (task_url σ t); [by apply clean_pause|done].
Qed.

(** A new controller is not aborted and is held under one key. *)
Lemma clean_on_stream t l h σ : clean σ -> clean (on_stream t l h σ).
Proof.
  intros Hc. unfold on_stream.
  set (σ1 := if truthy _ then _ else σ).
  assert (clean σ1) as Hc1.
  { unfold σ1. destruct (truthy _); [|done].
    eapply same_signals_clean; [apply same_signals_write_size|done]. }
  clearbody σ1. clear Hc.
  assert (∀ u c, taskSignal σ1 !! u = Some c ->
                 (ctrlH σ1 ++ [false]) !! c = Some false ∧ c ≠ length (ctrlH σ1))
    as Hold.
  { intros u c Hu. destruct (Hc1 u c Hu) as [Hf _]. split.
    - by apply lookup_app_l_Some.
    - apply lookup_lt_Some in Hf. lia. }
  destruct (task_url _ t) as [u|] eqn:Eu; simpl.
  - intros u' c'. simpl. intros Hu'.
    apply lookup_insert_Some in Hu' as [[<- <-]|[Hne Hu']].
    + split.
      * rewrite lookup_app_r by done. by rewrite Nat.sub_diag.
      * intros u'' Hu''.
        apply lookup_insert_Some in Hu'' as [[<- _]|[_ Hu'']]; [done|].
        by destruct (Hold _ _ Hu'') as [_ ?].
    + split; [by destruct (Hold _ _ Hu')|].
      intros u'' Hu''.
      apply lookup_insert_Some in Hu'' as [[_ Hcc]|[_ Hu'']].
      * subst c'. by destruct (Hold _ _ Hu') as [_ ?].
      * by destruct (Hc1 _ _ Hu') as [_ Hinj]; apply Hinj.
  - intros u' c'. simpl. intros Hu'. split; [by destruct (Hold _ _ Hu')|].
    by destruct (Hc1 _ _ Hu') as [_ Hinj].
Qed.

Lemma clean_delete u σ :
  clean σ -> clean (set_taskSignal (delete u (taskSignal σ)) σ).
Proof.
  intros Hc u' c'. simpl. intros Hu'.
  apply lookup_delete_Some in Hu' as [_ Hu'].
  destruct (Hc _ _ Hu') as [Hf Hinj]. split; [done|].
  intros u'' Hu''. apply lookup_delete_Some in Hu'' as [_ Hu'']. by apply Hinj.
Qed.

Lemma clean_on_finish_task info task σ :
  clean σ -> clean (on_finish_task info task σ).
Proof.
  intros Hc. unfold on_finish_task.
  assert (∀ σ1, clean σ1 -> clean
            (if forallb (has_status σ1 TaskStatus.finish) (subtasks σ1 info)
             then on_finish info σ1
             else match task_url σ1 info with
                  | Some u => start u false σ1
                  | None => σ1
                  end)) as Hrest.
  { intros σ1 Hc1. destruct (forallb _ _).
    - unfold on_finish. simpl.
      destruct (task_url _ info); [|done].
      by apply (clean_remove _ (set_posts (posts σ1 ++ [info]) σ1)).
    - destruct (task_url σ1 info); [|done].
      eapply same_signals_clean; [apply same_signals_start|done]. }
  destruct (sub_url σ task); apply Hrest; [by apply clean_delete|done].
Qed.

Lemma clean_resume `{Util} c r σ σ' :
  clean σ -> resume c r σ = Some σ' -> clean σ'.
Proof.
  intros Hc Hr.
  assert (∀ t l, clean (on_failure t l σ)) as Hfail.
  { intros t l. unfold on_failure.
    destruct (match task_url σ t with Some u => _ | None => _ end);
      (eapply same_signals_clean; [apply same_signals_write_status|done]). }
  destruct c, r; simpl in Hr; try discriminate;
    try (injection Hr as <-); try done; try apply Hfail.
  - eapply same_signals_clean; [|exact Hc].
    eapply same_signals_trans;
      [apply same_signals_initTask|apply same_signals_run_subtask].
  - by apply clean_on_stream.
  - destruct (default false _); [done|]. injection Hr as <-.
    unfold on_piped. apply clean_on_finish_task.
    eapply same_signals_clean; [apply same_signals_write_status|done].
Qed.

Lemma clean_step `{Util} e σ : clean σ -> clean (step e σ).
Proof.
  intros Hc. destruct e; simpl.
  - eapply same_signals_clean; [apply same_signals_addTask|done].
  - eapply same_signals_clean; [apply same_signals_start|done].
  - eapply same_signals_clean; [apply same_signals_startAll|done].
  - by apply clean_pause.
  - by apply clean_pauseAll.
  - by apply clean_remove.
  - by apply clean_removeAll.
  - done.
  - eapply same_signals_clean; [apply same_signals_autorun|done].
  - destruct (conts σ !! k) as [[c|]|] eqn:Ek; try done.
    destruct (resume c r _) as [σ'|] eqn:Er; simpl; [|done].
    eapply clean_resume; [|exact Er]. done.
  - destruct (conts σ !! k) as [[[]|]|]; try done.
    eapply same_signals_clean; [apply same_signals_write_resolve|done].
Qed.

Lemma reachable_clean `{Util} σ : reachable σ -> clean σ.
Proof.
  induction 1 as [d|σ e _ IH]; [|by apply clean_step].
  intros u c Hu. simpl in Hu. by rewrite lookup_empty in Hu.
Qed.

(** X19.  In every store the program reaches, whatever makes a
    transfer fail, and whether or not [pause] was called, the [catch] of
    [start] assigns [fail]: its branch to [pause] is never taken,
    because [abortTask] deletes a token from the signal map as it aborts
    it. *)
Lemma on_failure_fails `{Util} (σ : Store) (t l : nat) :
  reachable σ -> on_failure t l σ = write_status l TaskStatus.fail σ.
Proof.
  intros Hr. apply reachable_clean in Hr. unfold on_failure.
  destruct (task_url σ t) as [u|]; [|done].
  unfold signal_aborted. destruct (taskSignal σ !! u) as [c|] eqn:E; [|done].
  destruct (Hr u c E) as [-> _]. done.
Qed.

(** [start] files the token of a transfer under the url of the task; the
    entries under other keys, the url of the subtask among them when it
    differs, stay as they were. *)
Lemma on_stream_key (t l : nat) (h : Headers) (σ : Store) (u : string) :
  task_url σ t = Some u ->
  taskSignal (on_stream t l h σ) !! u = Some (length (ctrlH σ)) ∧
  ∀ u', u' ≠ u -> taskSignal (on_stream t l h σ) !! u' = taskSignal σ !! u'.
Proof.
  intros Hu. unfold on_stream.
  set (σ1 := if truthy _ then _ else σ).
  assert (tasksH σ1 = tasksH σ ∧ taskSignal σ1 = taskSignal σ ∧ ctrlH σ1 = ctrlH σ)
    as (Et & Es & Ec).
  { unfold σ1. destruct (truthy _); [|done].
    unfold write_size. by destruct (subsH σ !! l). }
  clearbody σ1. unfold task_url in *. simpl. rewrite Et, Hu. simpl.
  rewrite Es, Ec. split.
  - apply lookup_insert_eq.
  - intros u' Hne. by apply lookup_insert_ne.
Qed.

(** ** What [pause] leaves behind at once *)

Lemma subsH_abortTask l σ : subsH (abortTask l σ).1 = subsH σ.
Proof.
  unfold abortTask. destruct (sub_url σ l); [|done].
  by destruct (taskSignal σ !! _).
Qed.

Lemma sub_url_write_status l l' st σ :
  sub_url (write_status l' st σ) l = sub_url σ l.
Proof.
  unfold write_status, sub_url.
  destruct (subsH σ !! l') as [s|] eqn:E; [|done]. simpl.
  destruct (decide (l = l')) as [->|Hne].
  - rewrite list_lookup_insert_eq by (by eapply lookup_lt_Some). by rewrite E.
  - by rewrite list_lookup_insert_ne.
Qed.

Lemma taskSignal_abortTask_None l u σ :
  taskSignal σ !! u = None ∨ sub_url σ l = Some u ->
  taskSignal (abortTask l σ).1 !! u = None.
Proof.
  intros Hu. unfold abortTask.
  destruct (sub_url σ l) as [u'|] eqn:El.
  - destruct (taskSignal σ !! u') as [c|] eqn:E; simpl.
    + apply lookup_delete_None. destruct Hu as [Hu|Hu]; [by right|].
      left. congruence.
    + destruct Hu as [Hu|Hu]; [done|congruence].
  - by destruct Hu.
Qed.

(** Once paused and without a token, a subtask stays so through the
    rest of the loop of [pause]. *)
Lemma pause_sub_keeps acc l' l u :
  sub_status acc.1 l = Some TaskStatus.pause ->
  sub_url acc.1 l = Some u ->
  taskSignal acc.1 !! u = None ->
  sub_status (pause_sub acc l').1 l = Some TaskStatus.pause ∧
  sub_url (pause_sub acc l').1 l = Some u ∧
  taskSignal (pause_sub acc l').1 !! u = None.
Proof.
  destruct acc as [σ ok]. unfold pause_sub. cbn [fst]. intros Hs Hu Hn.
  destruct (has_status σ TaskStatus.ready l' || has_status σ TaskStatus.pending l')
    eqn:E; [|done].
  pose proof (subsH_abortTask l' (write_status l' TaskStatus.pause σ)) as Hsub.
  pose proof (taskSignal_abortTask_None l' u
                (write_status l' TaskStatus.pause σ)) as Hsig.
  destruct (abortTask l' (write_status l' TaskStatus.pause σ)) as [σ' r].
  cbn [fst] in *.
  assert (l ≠ l') as Hne.
  { intros ->. apply orb_true_iff in E as [E|E];
      apply has_status_true in E; congruence. }
  unfold sub_status, sub_url in *. rewrite Hsub.
  fold (sub_status (write_status l' TaskStatus.pause σ) l).
  fold (sub_url (write_status l' TaskStatus.pause σ) l).
  rewrite sub_status_write_ne, sub_url_write_status by done.
  split; [done|]. split; [done|]. apply Hsig. left.
  by destruct (same_signals_write_status l' TaskStatus.pause σ) as [-> _].
Qed.

Lemma foldl_pause_sub_keeps ls acc l u :
  sub_status acc.1 l = Some TaskStatus.pause ->
  sub_url acc.1 l = Some u ->
  taskSignal acc.1 !! u = None ->
  sub_status (foldl pause_sub acc ls).1 l = Some TaskStatus.pause ∧
  taskSignal (foldl pause_sub acc ls).1 !! u = None.
Proof.
  revert acc. induction ls as [|l' ls IH]; intros acc Hs Hu Hn; simpl; [done|].
  destruct (pause_sub_keeps acc l' l u Hs Hu Hn) as (Hs' & Hu' & Hn').
  by apply IH.
Qed.

Lemma foldl_pause_sub_pauses ls acc l u :
  l ∈ ls ->
  sub_status acc.1 l = Some TaskStatus.pending ∨
  sub_status acc.1 l = Some TaskStatus.ready ->
  sub_url acc.1 l = Some u ->
  sub_status (foldl pause_sub acc ls).1 l = Some TaskStatus.pause ∧
  taskSignal (foldl pause_sub acc ls).1 !! u = None.
Proof.
  revert acc. induction ls as [|l' ls IH]; intros acc Hin Hs Hu; simpl.
  { by apply elem_of_nil in Hin. }
  destruct (decide (l = l')) as [<-|Hne].
  - apply (foldl_pause_sub_keeps ls (pause_sub acc l) l u);
      destruct acc as [σ ok]; unfold pause_sub; cbn [fst] in *;
      (assert (has_status σ TaskStatus.ready l || has_status σ TaskStatus.pending l
               = true) as ->
         by (apply orb_true_iff; destruct Hs as [Hs|Hs];
             [right|left]; by apply has_status_true));
      pose proof (subsH_abortTask l (write_status l TaskStatus.pause σ)) as Hsub;
      pose proof (taskSignal_abortTask_None l u
                    (write_status l TaskStatus.pause σ)) as Hsig;
      destruct (abortTask l (write_status l TaskStatus.pause σ)) as [σ' r];
      cbn [fst] in *.
    + unfold sub_status. rewrite Hsub.
      fold (sub_status (write_status l TaskStatus.pause σ) l).
      destruct Hs as [Hs|Hs]; by eapply sub_status_write_eq.
    + unfold sub_url. rewrite Hsub.
      fold (sub_url (write_status l TaskStatus.pause σ) l).
      by rewrite sub_url_write_status.
    + apply Hsig. right. by rewrite sub_url_write_status.
  - apply elem_of_cons in Hin as [?|Hin]; [done|].
    apply IH; [done|..];
      destruct acc as [σ ok]; unfold pause_sub; cbn [fst] in *;
      (destruct (has_status σ TaskStatus.ready l' || has_status σ TaskStatus.pending l');
       [|done]);
      pose proof (subsH_abortTask l' (write_status l' TaskStatus.pause σ)) as Hsub;
      destruct (abortTask l' (write_status l' TaskStatus.pause σ)) as [σ' r];
      cbn [fst] in *.
    + unfold sub_status in *. rewrite Hsub.
      fold (sub_status (write_status l' TaskStatus.pause σ) l).
      by rewrite sub_status_write_ne.
    + unfold sub_url in *. rewrite Hsub.
      fold (sub_url (write_status l' TaskStatus.pause σ) l).
      by rewrite sub_url_write_status.
Qed.

(** X20.  When [pause] returns, a subtask of the task that was pending
    or ready is paused and the signal map has no entry under its url. *)
Lemma pause_leaves_paused (url : string) (σ : Store) (t l : nat) (u : string) :
  findTask url σ = Some t -> l ∈ subtasks σ t ->
  sub_status σ l = Some TaskStatus.pending ∨
  sub_status σ l = Some TaskStatus.ready ->
  sub_url σ l = Some u ->
  sub_status (pause url σ).1 l = Some TaskStatus.pause ∧
  taskSignal (pause url σ).1 !! u = None.
Proof.
  intros Ht Hin Hs Hu. unfold pause. rewrite Ht.
  by apply (foldl_pause_sub_pauses (subtasks σ t) (σ, true) l u).
Qed.

(** ** The scenarios, evaluated *)

Lemma reachable_run `{Util} (es : list Event) (σ : Store) :
  reachable σ -> reachable (run es σ).
Proof.
  revert σ. induction es as [|e es IH]; intros σ Hr; simpl; [done|].
  apply IH. by constructor.
Qed.

Lemma file_opening_reachable : @reachable plain_util file_opening_store.
Proof. apply reachable_run. constructor. Qed.

Lemma file_piping_reachable : @reachable plain_util file_piping_store.
Proof. apply reachable_run. constructor. Qed.

Lemma folder_listed_reachable : @reachable plain_util folder_listed_store.
Proof. apply reachable_run. constructor. Qed.

Lemma folder_piping_reachable : @reachable plain_util folder_piping_store.
Proof. apply reachable_run. constructor. Qed.

Lemma file_failed_reachable : @reachable plain_util file_failed_store.
Proof. apply (reachable_run (H := plain_util)). constructor. Qed.

Lemma four_started_reachable : @reachable plain_util four_started_store.
Proof. apply reachable_run. constructor. Qed.

(** C1, on the code.  The file's transfer is running, its subtask is
    pending and its token is in the signal map.  [pause] puts the
    subtask in pause, aborts the token and deletes it from the map, and
    its promise never resolves.  The aborted pipeline then rejects, the
    [catch] of [start] looks the token up, finds none, and puts the
    subtask in fail. *)
Theorem pause_of_pending_ends_failed :
  sub_status file_piping_store 0 = Some TaskStatus.pending ∧
  taskSignal file_piping_store !! file_url = Some 0 ∧
  ctrlH file_piping_store !! 0 = Some false ∧
  let paused := pause file_url file_piping_store in
  paused.2 = false ∧
  sub_status paused.1 0 = Some TaskStatus.pause ∧
  ctrlH paused.1 !! 0 = Some true ∧
  taskSignal paused.1 !! file_url = None ∧
  conts paused.1 !! 4 = Some (Some (KPipeline 0 0 0)) ∧
  @resume plain_util (KPipeline 0 0 0) Fulfils paused.1 = None ∧
  sub_status (@step plain_util (Settle 4 Rejects) paused.1) 0
    = Some TaskStatus.fail.
Proof. vm_compute. repeat split; reflexivity. Qed.

(** C2, on the code.  Four tasks started before any of them has
    subtasks all pass [canStart]; when their listings arrive each makes
    its first subtask pending, and four subtasks are pending. *)
Theorem four_pending_at_once :
  let started := @run plain_util (take 5 four_started) (initial "/downloads") in
  queue started = 0 ∧
  conts started = [ Some (KLsShare 0); Some (KLsShare 1);
                    Some (KLsShare 2); Some (KLsShare 3) ] ∧
  @reachable plain_util four_started_store ∧
  queue four_started_store = 4.
Proof.
  split; [by vm_compute|]. split; [by vm_compute|].
  split; [apply four_started_reachable|by vm_compute].
Qed.

(** C4, on the code.  The token of the transfer of the folder's first
    file is in the signal map under the url of the folder, and there is
    none under the url of the file.  [pause] looks under the url of the
    file: it puts the subtask in pause, aborts nothing and resolves; the
    pipeline goes on and, when it completes, the subtask is finished. *)
Theorem token_stored_under_task_url :
  task_url folder_piping_store 0 = Some folder_url ∧
  sub_url folder_piping_store 0 = Some "https://share/file1" ∧
  conts folder_piping_store !! 4 = Some (Some (KPipeline 0 0 0)) ∧
  taskSignal folder_piping_store !! folder_url = Some 0 ∧
  taskSignal folder_piping_store !! "https://share/file1" = None ∧
  let paused := pause folder_url folder_piping_store in
  paused.2 = true ∧
  sub_status paused.1 0 = Some TaskStatus.pause ∧
  ctrlH paused.1 !! 0 = Some false ∧
  taskSignal paused.1 !! folder_url = Some 0 ∧
  sub_status (@step plain_util (Settle 4 Fulfils) paused.1) 0
    = Some TaskStatus.finish.
Proof. vm_compute. repeat split; reflexivity. Qed.

(** C3 as stated fails: [pause] takes the folder's second file, which
    is ready, to pause, and ready to pause is none of the six
    transitions. *)
Lemma pause_holds_ready_subtask :
  ¬ (∀ (σ : Store) (e : Event) (new : list (nat * TaskStatus.t * TaskStatus.t)),
       @reachable plain_util σ ->
       statusLog (@step plain_util e σ) = statusLog σ ++ new ->
       Forall (along edge) new).
Proof.
  intros H.
  specialize (H folder_listed_store (Pause folder_url)
                [(0, TaskStatus.pending, TaskStatus.pause);
                 (1, TaskStatus.ready, TaskStatus.pause)]
                folder_listed_reachable).
  assert (Forall (along edge)
            [(0, TaskStatus.pending, TaskStatus.pause);
             (1, TaskStatus.ready, TaskStatus.pause)]) as HF.
  { apply H. by vm_compute. }
  apply Forall_cons in HF as [_ HF]. apply Forall_cons in HF as [HF _].
  destruct HF as [HF|HF]; simpl in HF; discriminate.
Qed.

(** C5 as stated fails: the failed subtask of the file is not taken
    back to ready by [startAll]; no status is assigned at all. *)
Lemma startAll_leaves_failed :
  ¬ (∀ (σ : Store) (t l : nat) (a : TaskStatus.t),
       @reachable plain_util σ ->
       t ∈ list_ σ -> l ∈ subtasks σ t ->
       sub_status σ l = Some a ->
       a = TaskStatus.pause ∨ a = TaskStatus.fail ->
       logged (l, a, TaskStatus.ready) σ (startAll σ)).
Proof.
  intros H.
  destruct (H file_failed_store 0 0 TaskStatus.fail file_failed_reachable)
    as (new & E & Hin).
  - by apply (bool_decide_unpack _); vm_compute.
  - by apply (bool_decide_unpack _); vm_compute.
  - by vm_compute.
  - by right.
  - vm_compute in E. injection E as <-. by apply elem_of_nil in Hin.
Qed.

(** C8 as stated fails: with a content-disposition and no
    content-length the size does not stay as it was; it becomes [NaN]. *)
Lemma size_lost_without_content_length :
  ¬ (∀ (σ : Store) (k t l : nat) (url : string) (headers : Headers)
       (s : DownloadSubTask.t),
       @reachable plain_util σ ->
       conts σ !! k = Some (Some (KCreateStream t l url)) ->
       subsH σ !! l = Some s ->
       headers !! "content-length" = None ∨
       headers !! "content-disposition" = None ->
       DownloadSubTask.size <$>
         subsH (@step plain_util (Settle k (Response headers)) σ) !! l
       = Some (DownloadSubTask.size s)).
Proof.
  intros H.
  specialize (H file_opening_store 3 0 0 "https://cdn/abc"
                {[ "content-disposition" := "attachment" ]}
                (DownloadSubTask.mk file_url None "/downloads/doc.pdf.downloading"
                   "doc.pdf" 0 TaskStatus.pending (Num 10))
                file_opening_reachable).
  assert (Some NaN = Some (Num 10)) as E; [|discriminate].
  apply H; [by vm_compute..|]. left. by vm_compute.
Qed.

(** ** The theorems at the scenarios *)

(** While the file's only subtask is pending, [start] on its url
    changes nothing. *)
Lemma start_guard_returns_at_file :
  (findTask file_url file_piping_store = None ∨
   ∃ t, findTask file_url file_piping_store = Some t ∧
        subtasks file_piping_store t ≠ [] ∧
        Forall (fun l => sub_status file_piping_store l ≠ Some TaskStatus.ready)
               (subtasks file_piping_store t)) ∧
  start file_url false file_piping_store = file_piping_store.
Proof.
  assert (findTask file_url file_piping_store = None ∨
          ∃ t, findTask file_url file_piping_store = Some t ∧
               subtasks file_piping_store t ≠ [] ∧
               Forall (fun l => sub_status file_piping_store l
                                ≠ Some TaskStatus.ready)
                      (subtasks file_piping_store t)) as Hyp.
  { right. exists 0. split; [by vm_compute|]. split; [by vm_compute|].
    apply (bool_decide_unpack _). by vm_compute. }
  split; [exact Hyp|]. exact (start_guard_returns _ _ Hyp).
Defined.

(** The file is admitted once: a second request for its url is refused. *)
Lemma addTask_duplicate_refused_at_file :
  (∃ t, t ∈ list_ file_piping_store ∧
        task_url file_piping_store t = Some file_url) ∧
  @addTask plain_util (mkOptions "again.pdf" file_url None None) false false
    file_piping_store
  = (file_piping_store, Refused DuplicateTask).
Proof.
  assert (∃ t, t ∈ list_ file_piping_store ∧
               task_url file_piping_store t = Some file_url) as Hyp.
  { exists 0. split; [apply (bool_decide_unpack _)|]; by vm_compute. }
  split; [exact Hyp|].
  exact (@addTask_duplicate_refused plain_util file_piping_store
           (mkOptions "again.pdf" file_url None None) false false Hyp).
Defined.

(** The file's pipeline completes while its subtask is pending. *)
Lemma step_follows_edges_at_file :
  settles_pending file_piping_store (Settle 4 Fulfils) ∧
  ∃ new, statusLog (@step plain_util (Settle 4 Fulfils) file_piping_store)
         = statusLog file_piping_store ++ new ∧
         Forall (along edge) new.
Proof.
  assert (settles_pending file_piping_store (Settle 4 Fulfils)) as Hyp.
  { by vm_compute. }
  split; [exact Hyp|].
  exact (@step_follows_edges plain_util file_piping_store (Settle 4 Fulfils) Hyp).
Defined.

(** Both files of the folder are paused; [startAll] resumes the second.
    With the first file failed and the second paused, [startAll] leaves
    the first failed and assigns ready to the second only; [start] with
    reset takes the first back to ready. *)
Lemma startAll_resumes_paused_at_folder :
  let σ := (pause folder_url folder_listed_store).1 in
  (0 ∈ list_ σ ∧ 1 ∈ subtasks σ 0 ∧
   sub_status σ 1 = Some TaskStatus.pause ∧
   logged (1, TaskStatus.pause, TaskStatus.ready) σ (startAll σ) ∧
   resumed (startAll σ) 1) ∧
  (0 ∈ list_ folder_failed_store ∧ 0 ∈ subtasks folder_failed_store 0 ∧
   sub_status folder_failed_store 0 = Some TaskStatus.fail ∧
   sub_status (startAll folder_failed_store) 0 = Some TaskStatus.fail) ∧
  (is_reset_start StartAll = false ∧
   statusLog (@step plain_util StartAll folder_failed_store)
   = statusLog folder_failed_store
     ++ [(1, TaskStatus.pause, TaskStatus.ready);
         (1, TaskStatus.ready, TaskStatus.pending)] ∧
   ∃ new, statusLog (@step plain_util StartAll folder_failed_store)
          = statusLog folder_failed_store ++ new ∧
          Forall (fun w => ¬ resets_failed w) new) ∧
  (findTask folder_url folder_failed_store = Some 0 ∧
   canStart folder_failed_store = true ∧
   logged (0, TaskStatus.fail, TaskStatus.ready) folder_failed_store
     (@step plain_util (Start folder_url true) folder_failed_store)).
Proof.
  intros σ.
  assert (0 ∈ list_ σ) as H0 by (apply (bool_decide_unpack _); by vm_compute).
  assert (1 ∈ subtasks σ 0) as H1 by (apply (bool_decide_unpack _); by vm_compute).
  assert (sub_status σ 1 = Some TaskStatus.pause) as H2 by (by vm_compute).
  assert (0 ∈ list_ folder_failed_store) as F0
    by (apply (bool_decide_unpack _); by vm_compute).
  assert (0 ∈ subtasks folder_failed_store 0) as F1
    by (apply (bool_decide_unpack _); by vm_compute).
  assert (sub_status folder_failed_store 0 = Some TaskStatus.fail) as F2
    by (by vm_compute).
  assert (findTask folder_url folder_failed_store = Some 0) as F3
    by (by vm_compute).
  assert (canStart folder_failed_store = true) as F4 by (by vm_compute).
  split; [|split; [|split]].
  - split; [exact H0|]. split; [exact H1|]. split; [exact H2|].
    exact (proj1 (proj1 (@startAll_resumes_paused plain_util) σ 0 1 H0 H1) H2).
  - split; [exact F0|]. split; [exact F1|]. split; [exact F2|].
    exact (proj2 (proj1 (@startAll_resumes_paused plain_util)
                    folder_failed_store 0 0 F0 F1) F2).
  - split; [reflexivity|]. split; [by vm_compute|].
    exact (proj1 (proj2 (@startAll_resumes_paused plain_util))
             folder_failed_store StartAll eq_refl).
  - split; [exact F3|]. split; [exact F4|].
    exact (proj2 (proj2 (@startAll_resumes_paused plain_util))
             folder_failed_store folder_url 0 0 F3 F4 F1 F2).
Defined.

(** The stream of the file opens with both headers: the size is 42. *)
Lemma stream_sets_size_at_file :
  conts file_opening_store !! 3
    = Some (Some (KCreateStream 0 0 "https://cdn/abc")) ∧
  DownloadSubTask.size <$> subsH file_opening_store !! 0 = Some (Num 10) ∧
  DownloadSubTask.size <$>
    subsH (@step plain_util (Settle 3 (Response attachment)) file_opening_store) !! 0
  = Some (Num 42).
Proof.
  assert (conts file_opening_store !! 3
          = Some (Some (KCreateStream 0 0 "https://cdn/abc"))) as Hk
    by (by vm_compute).
  assert (subsH file_opening_store !! 0
          = Some (DownloadSubTask.mk file_url None
                    "/downloads/doc.pdf.downloading" "doc.pdf" 0
                    TaskStatus.pending (Num 10))) as Hs
    by (by vm_compute).
  split; [exact Hk|]. split; [by rewrite Hs|].
  rewrite (@stream_sets_size plain_util file_opening_store 3 0 0
             "https://cdn/abc" attachment _ Hk Hs).
  by vm_compute.
Defined.

(** The service answers the first url with a validation page and the
    url it hands out with a file: two streams are opened. *)
Lemma createStream_bypasses_challenge_at_service :
  remote_stream challenge_remote "https://cdn/abc"
    = OnResponse 0 {[ "content-type" := "text/html" ]} ∧
  eutt eq
    (interp_state (against challenge_remote)
       (@createStream challenge_web "https://cdn/abc") [])
    (Ret ([ Opened "https://cdn/abc"; ReadText 0; Waited 2000;
            Submitted (mkRequest "https://cdn/ajax.php" "post"
                         "https://cdn/abc" [("sign", "s1")]);
            Opened "https://cdn/real" ],
          Resolved 1)).
Proof.
  split; [reflexivity|].
  refine (@createStream_bypasses_challenge challenge_web challenge_remote
            "https://cdn/abc" 0 {[ "content-type" := "text/html" ]}
            eq_refl eq_refl
            "https://cdn/real" 1
            {[ "content-type" := "application/octet-stream" ]}
            eq_refl eq_refl _).
  by vm_compute.
Defined.


(** * Further properties of the store *)

(** ** Removing tasks *)

Lemma set_list_same (σ : Store) : set_list (list_ σ) σ = σ.
Proof. by destruct σ. Qed.

Lemma find_none_all {A} (f : A -> bool) (l : list A) :
  List.find f l = None -> List.filter (fun x => negb (f x)) l = l.
Proof.
  induction l as [|x l IH]; simpl; [done|].
  destruct (f x); [done|]. simpl. intros E. by rewrite IH.
Qed.

Lemma find_filter_negb {A} (f : A -> bool) (l : list A) :
  List.find f (List.filter (fun x => negb (f x)) l) = None.
Proof.
  induction l as [|x l IH]; simpl; [done|].
  destruct (f x) eqn:E; simpl; [done|]. by rewrite E.
Qed.

Lemma find_filter_other {A} (f g : A -> bool) (l : list A) :
  (∀ x, f x = true -> g x = true) ->
  List.find f (List.filter g l) = List.find f l.
Proof.
  intros Hfg. induction l as [|x l IH]; simpl; [done|].
  destruct (g x) eqn:Eg; simpl.
  - by destruct (f x).
  - destruct (f x) eqn:Ef; [|done]. apply Hfg in Ef. congruence.
Qed.

Lemma tasksH_abortTask l σ : tasksH (abortTask l σ).1 = tasksH σ.
Proof.
  unfold abortTask. destruct (sub_url σ l); [|done].
  by destruct (taskSignal σ !! _).
Qed.

Lemma list_abortTask l σ : list_ (abortTask l σ).1 = list_ σ.
Proof.
  unfold abortTask. destruct (sub_url σ l); [|done].
  by destruct (taskSignal σ !! _).
Qed.

Lemma abortAll_frame ls σ :
  tasksH (abortAll ls σ) = tasksH σ ∧ subsH (abortAll ls σ) = subsH σ ∧
  list_ (abortAll ls σ) = list_ σ.
Proof.
  unfold abortAll. revert σ. induction ls as [|l ls IH]; intros σ; simpl; [done|].
  destruct (IH (abortTask l σ).1) as (-> & -> & ->).
  by rewrite tasksH_abortTask, subsH_abortTask, list_abortTask.
Qed.

Lemma sub_url_abortTask l' l σ : sub_url (abortTask l' σ).1 l = sub_url σ l.
Proof. unfold sub_url. by rewrite subsH_abortTask. Qed.

(** The loop over [abortTask] leaves no token under the url of a subtask
    it has visited, and adds none. *)
Lemma abortAll_clears ls σ u :
  taskSignal σ !! u = None ∨ (∃ l, l ∈ ls ∧ sub_url σ l = Some u) ->
  taskSignal (abortAll ls σ) !! u = None.
Proof.
  unfold abortAll. revert σ. induction ls as [|l' ls IH]; intros σ Hu; simpl.
  { destruct Hu as [Hu|(l & Hl & _)]; [done|by apply elem_of_nil in Hl]. }
  apply IH. destruct Hu as [Hu|(l & Hl & Hu)].
  - left. apply taskSignal_abortTask_None. by left.
  - apply elem_of_cons in Hl as [->|Hl].
    + left. apply taskSignal_abortTask_None. by right.
    + right. exists l. by rewrite sub_url_abortTask.
Qed.

Lemma remove_frame url σ :
  tasksH (remove url σ) = tasksH σ ∧ subsH (remove url σ) = subsH σ ∧
  list_ (remove url σ)
  = List.filter (fun t => negb (bool_decide (task_url σ t = Some url))) (list_ σ).
Proof.
  unfold remove. simpl. destruct (findTask url σ) as [t|]; [|done].
  destruct (abortAll_frame (subtasks σ t) σ) as (Et & Es & El).
  unfold task_url. by rewrite Et, Es, El.
Qed.

Lemma findTask_frame url σ σ' :
  tasksH σ' = tasksH σ -> list_ σ' = list_ σ -> findTask url σ' = findTask url σ.
Proof. intros Et El. unfold findTask, task_url. by rewrite Et, El. Qed.

(** X1.  After [remove(url)] no task of the active list has that url,
    so that [start] and [pause] on it do nothing; the tasks of other
    urls are found as before; no task or subtask object is changed, and
    the signal map has no entry under the url of a subtask of the task
    that was removed. *)
Theorem remove_forgets (url : string) (σ : Store) :
  findTask url (remove url σ) = None ∧
  (∀ reset, start url reset (remove url σ) = remove url σ) ∧
  pause url (remove url σ) = (remove url σ, true) ∧
  (∀ url', url' ≠ url -> findTask url' (remove url σ) = findTask url' σ) ∧
  tasksH (remove url σ) = tasksH σ ∧
  subsH (remove url σ) = subsH σ ∧
  (∀ t l u, findTask url σ = Some t -> l ∈ subtasks σ t ->
            sub_url σ l = Some u -> taskSignal (remove url σ) !! u = None).
Proof.
  destruct (remove_frame url σ) as (Et & Es & El).
  assert (findTask url (remove url σ) = None) as Hnone.
  { unfold findTask, task_url. rewrite Et, El. apply find_filter_negb. }
  split; [done|]. split; [|split; [|split; [|split; [done|split; [done|]]]]].
  - intros reset. unfold start. by rewrite Hnone.
  - unfold pause. by rewrite Hnone.
  - intros url' Hne. unfold findTask, task_url. rewrite Et, El.
    apply find_filter_other. intros t Ht. apply bool_decide_eq_true in Ht.
    apply negb_true_iff, bool_decide_eq_false. unfold task_url. congruence.
  - intros t l u Ht Hl Hu. unfold remove. simpl. rewrite Ht.
    apply abortAll_clears. right. by exists l.
Qed.

(** X2.  [remove] of a url that no task of the active list has leaves
    the store as it is. *)
Theorem remove_absent (url : string) (σ : Store) :
  findTask url σ = None -> remove url σ = σ.
Proof.
  intros Hnone. unfold remove. rewrite Hnone.
  unfold findTask in Hnone. rewrite (find_none_all _ _ Hnone).
  apply set_list_same.
Qed.

Lemma finishList_abortAll ls σ : finishList (abortAll ls σ) = finishList σ.
Proof.
  unfold abortAll. revert σ. induction ls as [|l ls IH]; intros σ; simpl; [done|].
  rewrite IH. unfold abortTask. destruct (sub_url σ l); [|done].
  by destruct (taskSignal σ !! _).
Qed.

Lemma removeAll_frame ls σ :
  tasksH (foldl (fun σ' t => abortAll (subtasks σ' t) σ') σ ls) = tasksH σ ∧
  subsH (foldl (fun σ' t => abortAll (subtasks σ' t) σ') σ ls) = subsH σ ∧
  finishList (foldl (fun σ' t => abortAll (subtasks σ' t) σ') σ ls)
  = finishList σ ∧
  ∀ u, taskSignal σ !! u = None ∨
       (∃ t l, t ∈ ls ∧ l ∈ subtasks σ t ∧ sub_url σ l = Some u) ->
       taskSignal (foldl (fun σ' t => abortAll (subtasks σ' t) σ') σ ls) !! u
       = None.
Proof.
  revert σ. induction ls as [|t ls IH]; intros σ; cbn [foldl].
  { split; [done|]. split; [done|]. split; [done|].
    intros u [Hu|(t & l & Ht & _)]; [done|]. by apply elem_of_nil in Ht. }
  destruct (abortAll_frame (subtasks σ t) σ) as (Et & Es & _).
  destruct (IH (abortAll (subtasks σ t) σ)) as (Et' & Es' & Ef' & Hclear).
  split; [congruence|]. split; [congruence|]. split.
  { by rewrite Ef', finishList_abortAll. }
  intros u Hu. apply Hclear. destruct Hu as [Hu|(t' & l & Ht' & Hl & Hu)].
  - left. apply abortAll_clears. by left.
  - apply elem_of_cons in Ht' as [->|Ht'].
    + left. apply abortAll_clears. right. by exists l.
    + right. exists t', l.
      assert (subtasks (abortAll (subtasks σ t) σ) t' = subtasks σ t') as ->
        by (unfold subtasks at 1 3; by rewrite Et).
      assert (sub_url (abortAll (subtasks σ t) σ) l = sub_url σ l) as ->
        by (unfold sub_url; by rewrite Es).
      done.
Qed.

(** X3.  After [removeAll] the active list is empty, the finished list
    and all task and subtask objects are as before, and the signal map
    has no entry under the url of any subtask of a task that was in the
    active list. *)
Theorem removeAll_empties (σ : Store) :
  list_ (removeAll σ) = [] ∧
  finishList (removeAll σ) = finishList σ ∧
  tasksH (removeAll σ) = tasksH σ ∧
  subsH (removeAll σ) = subsH σ ∧
  queue (removeAll σ) = 0 ∧
  ∀ t l u, t ∈ list_ σ -> l ∈ subtasks σ t -> sub_url σ l = Some u ->
           taskSignal (removeAll σ) !! u = None.
Proof.
  unfold removeAll.
  destruct (removeAll_frame (list_ σ) σ) as (Et & Es & Ef & Hclear).
  split; [done|]. split; [done|]. split; [done|]. split; [done|].
  split; [done|].
  intros t l u Ht Hl Hu. simpl. apply Hclear. right. by exists t, l.
Qed.

(** ** Admission *)

Lemma find_app_last {A} (f : A -> bool) (l : list A) (n : A) :
  f n = true -> (∀ x, x ∈ l -> f x = true -> x = n) ->
  List.find f (l ++ [n]) = Some n.
Proof.
  intros Hn. induction l as [|x l IH]; simpl; intros Hl; [by rewrite Hn|].
  destruct (f x) eqn:E.
  - f_equal. apply Hl; [by left|done].
  - apply IH. intros y Hy. apply Hl. by right.
Qed.

Lemma task_url_push_task T σ t :
  task_url (push_task T σ) t =
  if bool_decide (t = length (tasksH σ)) then Some (DownloadTask.url T)
  else task_url σ t.
Proof.
  unfold task_url, push_task. simpl. case_bool_decide as E.
  - subst t. rewrite lookup_app_r by done. by rewrite Nat.sub_diag.
  - destruct (decide (t < length (tasksH σ))) as [Hlt|Hge].
    + by rewrite lookup_app_l.
    + rewrite !lookup_ge_None_2; [done|lia|].
      rewrite length_app. simpl. lia.
Qed.

(** A task pushed under a url that no task of the list has is the one
    found under that url afterwards. *)
Lemma findTask_push_task T σ :
  findTask (DownloadTask.url T) σ = None ->
  findTask (DownloadTask.url T) (push_task T σ) = Some (length (tasksH σ)).
Proof.
  intros Hnone. unfold findTask.
  change (list_ (push_task T σ)) with (list_ σ ++ [length (tasksH σ)]).
  apply find_app_last.
  - apply bool_decide_eq_true. rewrite task_url_push_task.
    by rewrite bool_decide_eq_true_2.
  - intros t Ht Hf. apply bool_decide_eq_true in Hf.
    rewrite task_url_push_task in Hf. case_bool_decide; [done|].
    unfold findTask in Hnone.
    pose proof (find_none _ _ Hnone t) as Hx. simpl in Hx.
    rewrite bool_decide_eq_true_2 in Hx; [|done].
    discriminate Hx. by apply list_elem_of_In.
Qed.

(** X4.  When no task of the active list has the url and the
    destination does not exist, [addTask] appends one new task to the
    list: it has the url, password and merge flag asked for, the
    directory of the store, no type and no subtasks.  It is the task
    found under the url from then on, nothing else of the store changes,
    and any further [addTask] with that url is refused as a duplicate. *)
Theorem addTask_admits `{Util} (σ : Store) (options : AddOptions)
    (confirmed : bool) :
  findTask (o_url options) σ = None ->
  ∃ σ' T,
    addTask options false confirmed σ = (σ', Accepted) ∧
    list_ σ' = list_ σ ++ [length (tasksH σ)] ∧
    tasksH σ' = tasksH σ ++ [T] ∧
    DownloadTask.url T = o_url options ∧
    DownloadTask.pwd T = o_pwd options ∧
    DownloadTask.merge T = o_merge options ∧
    DownloadTask.dir T = dir σ ∧
    DownloadTask.urlType T = None ∧
    DownloadTask.tasks T = [] ∧
    subsH σ' = subsH σ ∧ finishList σ' = finishList σ ∧
    taskSignal σ' = taskSignal σ ∧ conts σ' = conts σ ∧
    findTask (o_url options) σ' = Some (length (tasksH σ)) ∧
    ∀ options' exists_' confirmed',
      o_url options' = o_url options ->
      addTask options' exists_' confirmed' σ' = (σ', Refused DuplicateTask).
Proof.
  intros Hnone. unfold addTask.
  set (T := DownloadTask.mk (o_url options) None _ (dir σ) (o_pwd options)
              (o_merge options) []).
  exists (push_task T σ), T.
  assert (findTask (o_url options) (push_task T σ) = Some (length (tasksH σ)))
    as Hfound by (by apply (findTask_push_task T σ)).
  split; [unfold pushAndCheckList; simpl; by rewrite Hnone|].
  repeat (split; [done|]).
  intros options' ex' cf' Hurl. unfold pushAndCheckList. simpl.
  by rewrite Hurl, Hfound.
Qed.

(** X5.  When no task of the active list has the url and the
    destination exists: if the user declines, [addTask] is refused as
    cancelled and the store stays as it is; if the user confirms, the
    list stays as it is while the removal of the destination is awaited,
    the task is appended when the removal is done, whatever the list
    holds by then, and is dropped when the removal fails. *)
Theorem addTask_overwrite `{Util} (σ : Store) (options : AddOptions) :
  findTask (o_url options) σ = None ->
  addTask options true false σ = (σ, Refused AdmissionCancelled) ∧
  ∃ T, DownloadTask.url T = o_url options ∧
       addTask options true true σ = (push_cont (KFsRemove T) σ, Removing) ∧
       ∀ σ' k, conts σ' !! k = Some (Some (KFsRemove T)) ->
         list_ (step (Settle k Fulfils) σ') = list_ σ' ++ [length (tasksH σ')] ∧
         tasksH (step (Settle k Fulfils) σ') = tasksH σ' ++ [T] ∧
         list_ (step (Settle k Rejects) σ') = list_ σ' ∧
         tasksH (step (Settle k Rejects) σ') = tasksH σ'.
Proof.
  intros Hnone. unfold addTask, pushAndCheckList. simpl. rewrite Hnone.
  split; [done|]. eexists. split; [|split; [done|]]; [done|].
  intros σ' k Hk. unfold step. rewrite Hk. by simpl.
Qed.

(** ** Pausing *)

Lemma pause_sub_frame acc l :
  tasksH (pause_sub acc l).1 = tasksH acc.1 ∧
  list_ (pause_sub acc l).1 = list_ acc.1.
Proof.
  destruct acc as [σ ok]. unfold pause_sub. cbn [fst].
  pose proof (tasksH_abortTask l (write_status l TaskStatus.pause σ)) as Ht.
  pose proof (list_abortTask l (write_status l TaskStatus.pause σ)) as Hl.
  destruct (abortTask l (write_status l TaskStatus.pause σ)) as [σ' r].
  cbn [fst] in *. destruct (_ || _); [|done]. cbn [fst].
  rewrite Ht, Hl, tasksH_write_status. split; [done|].
  unfold write_status. by destruct (subsH σ !! l).
Qed.

Lemma foldl_pause_sub_frame ls acc :
  tasksH (foldl pause_sub acc ls).1 = tasksH acc.1 ∧
  list_ (foldl pause_sub acc ls).1 = list_ acc.1.
Proof.
  revert acc. induction ls as [|l ls IH]; intros acc; cbn [foldl]; [done|].
  destruct (IH (pause_sub acc l)) as [-> ->]. apply pause_sub_frame.
Qed.

Lemma pause_frame url σ :
  tasksH (pause url σ).1 = tasksH σ ∧ list_ (pause url σ).1 = list_ σ.
Proof.
  unfold pause. destruct (findTask url σ) as [t|]; [|done].
  apply (foldl_pause_sub_frame (subtasks σ t) (σ, true)).
Qed.

(** One turn of the loop of [pause] changes the status of the subtask it
    visits, and only when that is ready or pending. *)
Lemma pause_sub_status acc l' l :
  sub_status (pause_sub acc l').1 l =
  if bool_decide (l = l') &&
     (has_status acc.1 TaskStatus.ready l || has_status acc.1 TaskStatus.pending l)
  then Some TaskStatus.pause else sub_status acc.1 l.
Proof.
  destruct acc as [σ ok]. unfold pause_sub. cbn [fst].
  pose proof (subsH_abortTask l' (write_status l' TaskStatus.pause σ)) as Hs.
  destruct (abortTask l' (write_status l' TaskStatus.pause σ)) as [σ' r].
  cbn [fst] in *.
  case_bool_decide as E; cbn [andb].
  - subst l'. destruct (_ || _) eqn:Eo; [|done]. cbn [fst].
    unfold sub_status at 1. rewrite Hs.
    fold (sub_status (write_status l TaskStatus.pause σ) l).
    apply orb_true_iff in Eo as [Eo|Eo]; apply has_status_true in Eo;
      by eapply sub_status_write_eq.
  - destruct (_ || _); [|done]. cbn [fst].
    unfold sub_status at 1. rewrite Hs.
    fold (sub_status (write_status l' TaskStatus.pause σ) l).
    by rewrite sub_status_write_ne.
Qed.

Lemma pause_sub_idle acc l' l :
  l = l' ∨ idle acc.1 l -> idle (pause_sub acc l').1 l.
Proof.
  intros Hl. unfold idle. rewrite pause_sub_status.
  destruct (has_status acc.1 TaskStatus.ready l) eqn:Er;
    destruct (has_status acc.1 TaskStatus.pending l) eqn:Ep;
    case_bool_decide; cbn [andb orb]; try done;
    apply has_status_false in Er || apply has_status_true in Er;
    apply has_status_false in Ep || apply has_status_true in Ep;
    destruct Hl as [Hl|[Hr Hp]]; done.
Qed.

Lemma foldl_pause_sub_idle ls acc l :
  l ∈ ls ∨ idle acc.1 l -> idle (foldl pause_sub acc ls).1 l.
Proof.
  revert acc. induction ls as [|l' ls IH]; intros acc Hl; cbn [foldl].
  { destruct Hl as [Hl|Hl]; [by apply elem_of_nil in Hl|done]. }
  destruct Hl as [Hl|Hl].
  - apply elem_of_cons in Hl as [->|Hl]; [|apply IH; by left].
    apply IH. right. apply pause_sub_idle. by left.
  - apply IH. right. apply pause_sub_idle. by right.
Qed.

(** The loop of [pause] over subtasks that are all idle does nothing. *)
Lemma foldl_pause_sub_idle_same ls acc :
  Forall (idle acc.1) ls -> foldl pause_sub acc ls = acc.
Proof.
  induction 1 as [|l ls [Hr Hp] _ IH]; cbn [foldl]; [done|].
  assert (pause_sub acc l = acc) as ->; [|done].
  destruct acc as [σ ok]. unfold pause_sub. cbn [fst] in *.
  apply has_status_false in Hr, Hp. by rewrite Hr, Hp.
Qed.

Lemma foldl_pause_sub_other ls acc l :
  l ∉ ls -> sub_status (foldl pause_sub acc ls).1 l = sub_status acc.1 l.
Proof.
  revert acc. induction ls as [|l' ls IH]; intros acc Hl; cbn [foldl]; [done|].
  rewrite IH.
  - rewrite pause_sub_status. rewrite bool_decide_eq_false_2; [done|].
    intros ->. apply Hl. by left.
  - intros Hin. apply Hl. by right.
Qed.

(** X6.  When [pause(url)] returns, no subtask of the task is ready or
    pending, the other subtasks of the store have the status they had,
    and a second [pause(url)] changes nothing and resolves. *)
Theorem pause_settles (url : string) (σ : Store) (t : nat) :
  findTask url σ = Some t ->
  (∀ l, l ∈ subtasks σ t -> idle (pause url σ).1 l) ∧
  (∀ l, l ∉ subtasks σ t -> sub_status (pause url σ).1 l = sub_status σ l) ∧
  pause url (pause url σ).1 = ((pause url σ).1, true).
Proof.
  intros Ht. destruct (pause_frame url σ) as [Et El].
  assert (∀ l, l ∈ subtasks σ t -> idle (pause url σ).1 l) as Hidle.
  { intros l Hl. unfold pause. rewrite Ht.
    apply (foldl_pause_sub_idle (subtasks σ t) (σ, true) l). by left. }
  split; [done|]. split.
  - intros l Hl. unfold pause. rewrite Ht.
    by apply (foldl_pause_sub_other (subtasks σ t) (σ, true) l).
  - unfold pause at 1.
    rewrite (findTask_frame url σ (pause url σ).1 Et El), Ht.
    assert (subtasks (pause url σ).1 t = subtasks σ t) as ->
      by (unfold subtasks; by rewrite Et).
    apply (foldl_pause_sub_idle_same (subtasks σ t) ((pause url σ).1, true)).
    apply Forall_forall. intros l Hl. by apply Hidle.
Qed.

Lemma find_unique (σ : Store) (ls : list nat) (t : nat) (u : string) :
  NoDup (task_url σ <$> ls) -> t ∈ ls -> task_url σ t = Some u ->
  List.find (fun t' => bool_decide (task_url σ t' = Some u)) ls = Some t.
Proof.
  induction ls as [|x ls IH]; intros Hnd Hin Hu.
  { by apply elem_of_nil in Hin. }
  rewrite fmap_cons in Hnd. apply NoDup_cons in Hnd as [Hx Hnd]. simpl.
  case_bool_decide as E.
  - f_equal. apply elem_of_cons in Hin as [->|Hin]; [done|].
    exfalso. apply Hx. rewrite E, <- Hu. apply list_elem_of_fmap. by exists t.
  - apply elem_of_cons in Hin as [->|Hin]; [done|]. by apply IH.
Qed.

Lemma pauseAll_turn_frame σ t :
  tasksH (pauseAll_turn σ t) = tasksH σ ∧ list_ (pauseAll_turn σ t) = list_ σ.
Proof.
  unfold pauseAll_turn. destruct (task_url σ t); [apply pause_frame|done].
Qed.

Lemma pauseAll_turn_idle σ t l :
  idle σ l ∨ (unique_urls σ ∧ t ∈ list_ σ ∧ l ∈ subtasks σ t) ->
  idle (pauseAll_turn σ t) l.
Proof.
  intros Hl. unfold pauseAll_turn.
  destruct (task_url σ t) as [u|] eqn:Eu.
  - unfold pause. destruct (findTask u σ) as [t'|] eqn:Ef.
    + destruct Hl as [Hl|(Hnd & Ht & Hl)].
      * apply (foldl_pause_sub_idle (subtasks σ t') (σ, true) l). by right.
      * unfold findTask in Ef. rewrite (find_unique σ _ t u Hnd Ht Eu) in Ef.
        injection Ef as <-.
        apply (foldl_pause_sub_idle (subtasks σ t) (σ, true) l). by left.
    + destruct Hl as [Hl|(Hnd & Ht & Hl)]; [done|].
      unfold findTask in Ef. rewrite (find_unique σ _ t u Hnd Ht Eu) in Ef.
      discriminate.
  - destruct Hl as [Hl|(_ & _ & Hl)]; [done|].
    unfold subtasks, task_url in *. destruct (tasksH σ !! t); [done|].
    by apply elem_of_nil in Hl.
Qed.

Lemma foldl_pauseAll_turn ls σ :
  tasksH (foldl pauseAll_turn σ ls) = tasksH σ ∧
  list_ (foldl pauseAll_turn σ ls) = list_ σ ∧
  ∀ l, idle σ l ∨
       (unique_urls σ ∧ ∃ t, t ∈ ls ∧ t ∈ list_ σ ∧ l ∈ subtasks σ t) ->
       idle (foldl pauseAll_turn σ ls) l.
Proof.
  revert σ. induction ls as [|t ls IH]; intros σ; cbn [foldl].
  { split; [done|]. split; [done|]. intros l [Hl|(_ & t & Ht & _)]; [done|].
    by apply elem_of_nil in Ht. }
  destruct (pauseAll_turn_frame σ t) as [Et El].
  destruct (IH (pauseAll_turn σ t)) as (Et' & El' & Hidle).
  split; [congruence|]. split; [congruence|].
  intros l Hl. apply Hidle.
  destruct Hl as [Hl|(Hnd & t' & Ht' & Hin & Hl)].
  - left. apply pauseAll_turn_idle. by left.
  - apply elem_of_cons in Ht' as [->|Ht'].
    + left. apply pauseAll_turn_idle. by right.
    + right. split.
      * unfold unique_urls, task_url in *. by rewrite Et, El.
      * exists t'. rewrite El. unfold subtasks. by rewrite Et.
Qed.

Lemma filter_none {A} (f : A -> bool) (l : list A) :
  (∀ x, x ∈ l -> f x = false) -> List.filter f l = [].
Proof.
  induction l as [|x l IH]; intros Hf; simpl; [done|].
  rewrite (Hf x) by (by left). apply IH. intros y Hy. apply Hf. by right.
Qed.

(** X7.  When no two tasks of the active list have the same url,
    [pauseAll] leaves no subtask of the active list ready or pending:
    the queue is empty and every task reports the status ready.  The
    list and the task objects are as before. *)
Theorem pauseAll_settles (σ : Store) :
  unique_urls σ ->
  (∀ t l, t ∈ list_ σ -> l ∈ subtasks σ t -> idle (pauseAll σ) l) ∧
  queue (pauseAll σ) = 0 ∧
  (∀ t, t ∈ list_ σ -> task_status (pauseAll σ) t = TaskStatus.ready) ∧
  list_ (pauseAll σ) = list_ σ ∧
  tasksH (pauseAll σ) = tasksH σ.
Proof.
  intros Hnd.
  assert (pauseAll σ = foldl pauseAll_turn σ (list_ σ)) as -> by done.
  destruct (foldl_pauseAll_turn (list_ σ) σ) as (Et & El & Hidle).
  assert (∀ t l, t ∈ list_ σ -> l ∈ subtasks σ t ->
                 idle (foldl pauseAll_turn σ (list_ σ)) l) as Hall.
  { intros t l Ht Hl. apply Hidle. right. split; [done|]. by exists t. }
  assert (∀ t, subtasks (foldl pauseAll_turn σ (list_ σ)) t = subtasks σ t)
    as Hsub by (intros t; unfold subtasks; by rewrite Et).
  split; [done|]. split; [|split; [|done]].
  - unfold queue, getList. rewrite El.
    rewrite filter_none; [done|]. intros l Hl.
    apply list_elem_of_In, in_flat_map in Hl as (t & Ht & Hl).
    rewrite Hsub in Hl. apply list_elem_of_In in Ht, Hl.
    apply has_status_false. by destruct (Hall t l Ht Hl).
  - intros t Ht. unfold task_status. rewrite Hsub.
    destruct (existsb _ _) eqn:E; [|done].
    apply existsb_exists in E as (l & Hl & E). apply has_status_true in E.
    apply list_elem_of_In in Hl. by destruct (Hall t l Ht Hl).
Qed.

(** ** Finished subtasks *)

Lemma sub_status_abortTask l' l σ :
  sub_status (abortTask l' σ).1 l = sub_status σ l.
Proof. unfold sub_status. by rewrite subsH_abortTask. Qed.

Lemma sub_status_reset_sub σ l' l a :
  sub_status σ l = Some a ->
  a ≠ TaskStatus.pause -> a ≠ TaskStatus.fail ->
  sub_status (reset_sub σ l') l = Some a.
Proof.
  intros Ha Hp Hf. unfold reset_sub.
  destruct (has_status σ TaskStatus.pause l') eqn:E1; cbn [orb].
  - apply has_status_true in E1. rewrite sub_status_write_ne; [done|].
    intros ->. congruence.
  - destruct (has_status σ TaskStatus.fail l') eqn:E2; [|done].
    apply has_status_true in E2. rewrite sub_status_write_ne; [done|].
    intros ->. congruence.
Qed.

Lemma sub_status_foldl_reset_sub ls σ l a :
  sub_status σ l = Some a ->
  a ≠ TaskStatus.pause -> a ≠ TaskStatus.fail ->
  sub_status (foldl reset_sub σ ls) l = Some a.
Proof.
  revert σ. induction ls as [|l' ls IH]; intros σ Ha Hp Hf; cbn [foldl]; [done|].
  apply IH; [|done..]. by apply sub_status_reset_sub.
Qed.

(** [start] leaves alone a subtask that is pending or finished. *)
Lemma sub_status_start_any url reset σ l a :
  sub_status σ l = Some a ->
  a = TaskStatus.pending ∨ a = TaskStatus.finish ->
  sub_status (start url reset σ) l = Some a.
Proof.
  intros Ha Hpf.
  assert (a ≠ TaskStatus.ready ∧ a ≠ TaskStatus.pause ∧ a ≠ TaskStatus.fail)
    as (Hr & Hp & Hf) by (destruct Hpf as [-> | ->]; done).
  unfold start. destruct (findTask url σ) as [t|]; [|done].
  destruct (canStart σ); simpl; [|done]. case_bool_decide; [done|].
  apply sub_status_run_subtask; [|done].
  destruct reset; [|done]. by apply sub_status_foldl_reset_sub.
Qed.

Lemma sub_status_foldl_pause_sub ls acc l a :
  sub_status acc.1 l = Some a ->
  a ≠ TaskStatus.ready -> a ≠ TaskStatus.pending ->
  sub_status (foldl pause_sub acc ls).1 l = Some a.
Proof.
  revert acc. induction ls as [|l' ls IH]; intros acc Ha Hr Hp; cbn [foldl]; [done|].
  apply IH; [|done..]. rewrite pause_sub_status.
  assert (has_status acc.1 TaskStatus.ready l = false) as ->
    by (apply has_status_false; congruence).
  assert (has_status acc.1 TaskStatus.pending l = false) as ->
    by (apply has_status_false; congruence).
  by rewrite andb_false_r.
Qed.

Lemma sub_status_pause url σ l a :
  sub_status σ l = Some a ->
  a ≠ TaskStatus.ready -> a ≠ TaskStatus.pending ->
  sub_status (pause url σ).1 l = Some a.
Proof.
  intros Ha Hr Hp. unfold pause. destruct (findTask url σ) as [t|]; [|done].
  by apply (sub_status_foldl_pause_sub (subtasks σ t) (σ, true)).
Qed.

Lemma sub_status_pauseAll σ l a :
  sub_status σ l = Some a ->
  a ≠ TaskStatus.ready -> a ≠ TaskStatus.pending ->
  sub_status (pauseAll σ) l = Some a.
Proof.
  assert (pauseAll σ = foldl pauseAll_turn σ (list_ σ)) as -> by done.
  generalize (list_ σ). intros ls. revert σ.
  induction ls as [|t ls IH]; intros σ Ha Hr Hp; cbn [foldl]; [done|].
  apply IH; [|done..]. unfold pauseAll_turn.
  destruct (task_url σ t); [by apply sub_status_pause|done].
Qed.

Lemma sub_status_initTask `{Util} t r σ l a :
  sub_status σ l = Some a -> sub_status (initTask t r σ) l = Some a.
Proof.
  unfold initTask, sub_status. intros Ha.
  destruct (tasksH σ !! t); [|done]. simpl.
  destruct (subsH σ !! l) as [s|] eqn:E; [|done].
  by rewrite (lookup_app_l_Some _ _ _ _ E).
Qed.

Lemma sub_status_write_size l' n σ l :
  sub_status (write_size l' n σ) l = sub_status σ l.
Proof.
  unfold write_size, sub_status.
  destruct (subsH σ !! l') as [s|] eqn:E; [|done]. simpl.
  destruct (decide (l = l')) as [->|Hne].
  - rewrite list_lookup_insert_eq by (by eapply lookup_lt_Some). by rewrite E.
  - by rewrite list_lookup_insert_ne.
Qed.

Lemma sub_status_write_resolve l' n σ l :
  sub_status (write_resolve l' n σ) l = sub_status σ l.
Proof.
  unfold write_resolve, sub_status.
  destruct (subsH σ !! l') as [s|] eqn:E; [|done]. simpl.
  destruct (decide (l = l')) as [->|Hne].
  - rewrite list_lookup_insert_eq by (by eapply lookup_lt_Some). by rewrite E.
  - by rewrite list_lookup_insert_ne.
Qed.

Lemma sub_status_on_stream t l' h σ l :
  sub_status (on_stream t l' h σ) l = sub_status σ l.
Proof.
  unfold sub_status. rewrite subsH_on_stream.
  destruct (truthy _); [|done]. apply sub_status_write_size.
Qed.

Lemma sub_status_remove url σ l : sub_status (remove url σ) l = sub_status σ l.
Proof.
  unfold sub_status. by destruct (remove_frame url σ) as (_ & -> & _).
Qed.

Lemma sub_status_on_finish_task info task σ l :
  sub_status σ l = Some TaskStatus.finish ->
  sub_status (on_finish_task info task σ) l = Some TaskStatus.finish.
Proof.
  intros Hl. unfold on_finish_task.
  assert (∀ σ1, sub_status σ1 l = Some TaskStatus.finish ->
     sub_status
       (if forallb (has_status σ1 TaskStatus.finish) (subtasks σ1 info)
        then on_finish info σ1
        else match task_url σ1 info with
             | Some u => start u false σ1
             | None => σ1
             end) l = Some TaskStatus.finish) as Hrest.
  { intros σ1 H1. destruct (forallb _ _).
    - unfold on_finish. destruct (task_url _ info); [|done].
      change (sub_status (remove s (set_posts (posts σ1 ++ [info]) σ1)) l
              = Some TaskStatus.finish).
      by rewrite sub_status_remove.
    - destruct (task_url σ1 info); [|done].
      apply sub_status_start_any; [done|by right]. }
  destruct (sub_url σ task); by apply Hrest.
Qed.

Lemma sub_status_on_failure t l0 σ l a :
  sub_status σ l = Some a -> l ≠ l0 -> sub_status (on_failure t l0 σ) l = Some a.
Proof.
  intros Ha Hne. unfold on_failure.
  destruct (match task_url σ t with Some u => _ | None => _ end);
    by rewrite sub_status_write_ne.
Qed.

Lemma sub_status_resume_finish `{Util} c r σ σ' l :
  (∀ l0, cont_sub c = Some l0 -> sub_status σ l0 = Some TaskStatus.pending) ->
  resume c r σ = Some σ' ->
  sub_status σ l = Some TaskStatus.finish ->
  sub_status σ' l = Some TaskStatus.finish.
Proof.
  intros Hlive Hr Hl.
  assert (∀ t l0, cont_sub c = Some l0 ->
            sub_status (on_failure t l0 σ) l = Some TaskStatus.finish) as Hfail.
  { intros t l0 Hc. apply sub_status_on_failure; [done|].
    intros ->. rewrite (Hlive _ Hc) in Hl. discriminate. }
  destruct c, r; simpl in Hr; try discriminate;
    try (injection Hr as <-); try done; try (by apply Hfail).
  - apply sub_status_run_subtask; [|done]. by apply sub_status_initTask.
  - by rewrite sub_status_on_stream.
  - destruct (default false _); [done|]. injection Hr as <-.
    unfold on_piped. apply sub_status_on_finish_task.
    destruct (decide (l = sub)) as [->|Hne].
    + by eapply sub_status_write_eq.
    + by rewrite sub_status_write_ne.
Qed.

(** X8.  A finished subtask stays finished: no public operation and no
    settling of a transfer whose own subtask is still pending changes
    its status.  In particular no [start], with or without reset, and no
    [startAll] downloads it again. *)
Theorem finish_is_final `{Util} (σ : Store) (e : Event) (l : nat) :
  settles_pending σ e ->
  sub_status σ l = Some TaskStatus.finish ->
  sub_status (step e σ) l = Some TaskStatus.finish.
Proof.
  intros Hlive Hl. destruct e; simpl.
  - unfold addTask, pushAndCheckList. destruct (findTask _ σ); [done|].
    by destruct exists_, confirmed.
  - apply sub_status_start_any; [done|by right].
  - by apply foldl_startAll_task_keeps.
  - by apply sub_status_pause.
  - by apply sub_status_pauseAll.
  - by rewrite sub_status_remove.
  - unfold sub_status, removeAll. simpl.
    by destruct (removeAll_frame (list_ σ) σ) as (_ & -> & _).
  - done.
  - unfold autorun, checkTask. destruct (list_ σ); [done|].
    destruct (List.find _ _); [|done]. destruct (truthy _); [|done].
    apply sub_status_start_any; [done|by right].
  - simpl in Hlive.
    destruct (conts σ !! k) as [[c|]|] eqn:Ek; try done.
    destruct (resume c r _) as [σ'|] eqn:Er; simpl; [|done].
    eapply sub_status_resume_finish; [|exact Er|done].
    intros l0 Hc. rewrite Hc in Hlive. exact Hlive.
  - destruct (conts σ !! k) as [[[]|]|]; try done.
    by rewrite sub_status_write_resolve.
Qed.

(** ** Resuming with [reset] *)





Lemma tasksH_foldl_reset_sub ls σ : tasksH (foldl reset_sub σ ls) = tasksH σ.
Proof.
  revert σ. induction ls as [|l ls IH]; intros σ; cbn [foldl]; [done|].
  rewrite IH. unfold reset_sub. destruct (_ || _); [|done].
  apply tasksH_write_status.
Qed.




(** ** The cap on the synchronous path *)

Lemma filter_length_same {A} (f g : A -> bool) (L : list A) :
  (∀ x, x ∈ L -> g x = f x) ->
  length (List.filter g L) = length (List.filter f L).
Proof.
  induction L as [|x L IH]; intros Hfg; simpl; [done|].
  rewrite (Hfg x) by (by left).
  destruct (f x); simpl; rewrite IH; try done;
    intros y Hy; apply Hfg; by right.
Qed.

Lemma filter_length_one {A} `{EqDecision A} (f g : A -> bool) (L : list A)
    (x0 : A) :
  NoDup L -> (∀ x, x ≠ x0 -> g x = f x) ->
  length (List.filter g L) <= length (List.filter f L) + 1.
Proof.
  intros Hnd Hfg. induction Hnd as [|x L Hx Hnd IH]; simpl; [lia|].
  destruct (decide (x = x0)) as [->|Hne].
  - assert (length (List.filter g L) = length (List.filter f L)) as E.
    { apply filter_length_same. intros y Hy. apply Hfg. by intros ->. }
    destruct (g x0), (f x0); simpl; lia.
  - rewrite (Hfg x Hne). destruct (f x); simpl; lia.
Qed.

Lemma reset_sub_pending σ l' l :
  has_status (reset_sub σ l') TaskStatus.pending l
  = has_status σ TaskStatus.pending l.
Proof.
  unfold reset_sub.
  destruct (has_status σ TaskStatus.pause l' || has_status σ TaskStatus.fail l')
    eqn:E; [|done].
  destruct (decide (l = l')) as [->|Hne].
  - unfold has_status.
    destruct (sub_status σ l') as [a|] eqn:Ea.
    + rewrite (sub_status_write_eq _ _ _ _ Ea).
      apply orb_true_iff in E as [E|E]; apply has_status_true in E;
        rewrite Ea in E; injection E as ->;
        by rewrite !bool_decide_eq_false_2.
    + apply orb_true_iff in E as [E|E]; apply has_status_true in E; congruence.
  - unfold has_status. by rewrite sub_status_write_ne.
Qed.

Lemma foldl_reset_sub_pending ls σ l :
  has_status (foldl reset_sub σ ls) TaskStatus.pending l
  = has_status σ TaskStatus.pending l.
Proof.
  revert σ. induction ls as [|l' ls IH]; intros σ; cbn [foldl]; [done|].
  by rewrite IH, reset_sub_pending.
Qed.

Lemma list_write_status l st σ : list_ (write_status l st σ) = list_ σ.
Proof. unfold write_status. by destruct (subsH σ !! l). Qed.

Lemma list_foldl_reset_sub ls σ : list_ (foldl reset_sub σ ls) = list_ σ.
Proof.
  revert σ. induction ls as [|l ls IH]; intros σ; cbn [foldl]; [done|].
  rewrite IH. unfold reset_sub. destruct (_ || _); [|done].
  apply list_write_status.
Qed.

(** Making one subtask pending raises the queue by one at most. *)
Lemma queue_run_subtask t σ :
  NoDup (flat_map (subtasks σ) (list_ σ)) ->
  queue (run_subtask t σ) <= queue σ + 1.
Proof.
  intros Hnd. unfold run_subtask.
  destruct (List.find _ _) as [l0|]; [|lia].
  unfold queue, getList.
  change (flat_map (subtasks (push_cont _ ?s)) (list_ (push_cont _ ?s)))
    with (flat_map (subtasks s) (list_ s)).
  assert (flat_map (subtasks (write_status l0 TaskStatus.pending σ))
            (list_ (write_status l0 TaskStatus.pending σ))
          = flat_map (subtasks σ) (list_ σ)) as ->.
  { rewrite list_write_status. apply flat_map_ext. intros t'.
    unfold subtasks. by rewrite tasksH_write_status. }
  apply (filter_length_one _ _ _ l0 Hnd).
  intros l Hne. unfold has_status.
  change (sub_status (push_cont ?k ?s) l) with (sub_status s l).
  by rewrite sub_status_write_ne.
Qed.

(** X10.  When no subtask object occurs twice among the subtasks of the
    active list, a call of [start] raises the number of pending
    subtasks by one at most, and not at all when three are pending: up
    to the first [await], [start] keeps the queue within three. *)
Theorem start_keeps_cap (σ : Store) (url : string) (reset : bool) :
  NoDup (flat_map (subtasks σ) (list_ σ)) ->
  queue (start url reset σ) <= queue σ + 1 ∧
  (queue σ <= 3 -> queue (start url reset σ) <= 3).
Proof.
  intros Hnd.
  assert (queue (start url reset σ) <= queue σ + 1 ∧
          (3 <= queue σ -> queue (start url reset σ) = queue σ)) as [H1 H2].
  { unfold start. destruct (findTask url σ) as [t|]; [|split; [lia|done]].
    unfold canStart. destruct (queue σ <? 3)%nat eqn:Ecan; cbn [negb];
      [|split; [lia|done]].
    apply Nat.ltb_lt in Ecan.
    case_bool_decide; [split; [by (change (queue σ <= queue σ + 1); lia)|done]|].
    split; [|lia].
    set (σr := if reset then foldl reset_sub σ (subtasks σ t) else σ).
    assert (tasksH σr = tasksH σ ∧ list_ σr = list_ σ ∧
            ∀ l, has_status σr TaskStatus.pending l
                 = has_status σ TaskStatus.pending l) as (Et & El & Ep).
    { unfold σr. destruct reset; [|done].
      split; [apply tasksH_foldl_reset_sub|].
      split; [apply list_foldl_reset_sub|]. intros l.
      apply foldl_reset_sub_pending. }
    assert (flat_map (subtasks σr) (list_ σr) = flat_map (subtasks σ) (list_ σ))
      as EL.
    { rewrite El. apply flat_map_ext. intros t'. unfold subtasks. by rewrite Et. }
    assert (queue σr = queue σ) as Eq.
    { unfold queue, getList. rewrite EL. apply filter_length_same.
      intros l _. apply Ep. }
    rewrite <- Eq. apply queue_run_subtask. by rewrite EL. }
  split; [done|]. intros Hq.
  destruct (decide (3 <= queue σ)) as [Hge|Hlt]; [rewrite H2; lia|lia].
Qed.

(** ** The listing arrives *)

Lemma initTask_shape `{Util} t r σ T :
  tasksH σ !! t = Some T ->
  let name := if bool_decide (DownloadTask.name T = "")
              then ls_name r else DownloadTask.name T in
  let T' := DownloadTask.mk (DownloadTask.url T) (Some (ls_type r)) name
              (DownloadTask.dir T) (DownloadTask.pwd T) (DownloadTask.merge T)
              (seq (length (subsH σ)) (length (ls_list r))) in
  tasksH (initTask t r σ) = <[t := T']> (tasksH σ) ∧
  subsH (initTask t r σ)
  = subsH σ ++ List.map (new_subtask T'
                           (path_join (DownloadTask.dir T) name +:+ ".downloading"))
                        (ls_list r) ∧
  list_ (initTask t r σ) = list_ σ ∧ conts (initTask t r σ) = conts σ.
Proof. intros HT. unfold initTask. by rewrite HT. Qed.

(** X11.  When [lsShare] answers a suspended [start], the task takes
    the type of the listing, keeps its name unless it has none, and gets
    one new subtask per entry of the listing, in the order of the
    listing: each has the url, password and size of its entry, no byte
    transferred, and the directory [<task.dir>/<task.name>.downloading].
    The first is pending and the others are ready, whatever the number
    of subtasks pending elsewhere.  The subtask objects that existed are
    untouched and the active list is as before. *)
Theorem listing_populates `{Util} (σ : Store) (k t : nat) (r : ShareListing)
    (T : DownloadTask.t) :
  conts σ !! k = Some (Some (KLsShare t)) ->
  tasksH σ !! t = Some T ->
  ∃ T', tasksH (step (Settle k (Listing r)) σ) !! t = Some T' ∧
    DownloadTask.url T' = DownloadTask.url T ∧
    DownloadTask.urlType T' = Some (ls_type r) ∧
    DownloadTask.name T'
    = (if bool_decide (DownloadTask.name T = "") then ls_name r
       else DownloadTask.name T) ∧
    DownloadTask.dir T' = DownloadTask.dir T ∧
    DownloadTask.tasks T' = seq (length (subsH σ)) (length (ls_list r)) ∧
    list_ (step (Settle k (Listing r)) σ) = list_ σ ∧
    (∀ l s, subsH σ !! l = Some s ->
            subsH (step (Settle k (Listing r)) σ) !! l = Some s) ∧
    ∀ i v, ls_list r !! i = Some v ->
      ∃ s, subsH (step (Settle k (Listing r)) σ) !! (length (subsH σ) + i)
           = Some s ∧
           DownloadSubTask.url s = e_url v ∧
           DownloadSubTask.pwd s = e_pwd v ∧
           DownloadSubTask.size s = sizeToByte (e_size v) ∧
           DownloadSubTask.resolve s = 0%Z ∧
           DownloadSubTask.dir s
           = path_join (DownloadTask.dir T') (DownloadTask.name T')
               +:+ ".downloading" ∧
           DownloadSubTask.status s
           = (if bool_decide (i = 0) then TaskStatus.pending
              else TaskStatus.ready).
Proof.
  intros Hk HT. unfold step. rewrite Hk. unfold resume, default, id.
  cbn [from_option].
  set (σ0 := set_conts (<[k:=None]> (conts σ)) σ).
  destruct (initTask_shape t r σ0 T HT) as (Et & Es & El & _).
  set (name := if bool_decide (DownloadTask.name T = "")
               then ls_name r else DownloadTask.name T) in *.
  set (T' := DownloadTask.mk _ _ _ _ _ _ _) in *.
  set (dir := path_join (DownloadTask.dir T) name +:+ ".downloading") in *.
  set (σ1 := initTask t r σ0) in *.
  change (subsH σ0) with (subsH σ) in *. change (tasksH σ0) with (tasksH σ) in *.
  change (list_ σ0) with (list_ σ) in *.
  assert (t < length (tasksH σ)) as Hlt by (by eapply lookup_lt_Some).
  assert (subtasks σ1 t = seq (length (subsH σ)) (length (ls_list r))) as Hsub.
  { unfold subtasks. rewrite Et. by rewrite list_lookup_insert_eq. }
  exists T'.
  destruct (ls_list r) as [|v0 vs] eqn:Er.
  - assert (run_subtask t σ1 = σ1) as ->.
    { unfold run_subtask. by rewrite Hsub. }
    rewrite Et, Es, El. split; [by rewrite list_lookup_insert_eq|].
    repeat (split; [done|]). split.
    + intros l s Hl. by apply lookup_app_l_Some.
    + intros i v Hi. by rewrite lookup_nil in Hi.
  - set (base := length (subsH σ)) in *.
    set (s0 := new_subtask T' dir v0).
    assert (subsH σ1 !! base = Some s0) as Hbase.
    { rewrite Es. rewrite lookup_app_r by done. by rewrite Nat.sub_diag. }
    assert (run_subtask t σ1
            = push_cont (KDownUrl t base (truthy (DownloadSubTask.pwd s0)))
                (write_status base TaskStatus.pending σ1)) as ->.
    { unfold run_subtask. rewrite Hsub. cbn [length seq List.find].
      unfold has_status at 1, sub_status. rewrite Hbase. cbn [fmap option_fmap option_map].
      rewrite bool_decide_eq_true_2 by done. by rewrite Hbase. }
    assert (subsH (push_cont (KDownUrl t base (truthy (DownloadSubTask.pwd s0)))
                     (write_status base TaskStatus.pending σ1))
            = <[base := DownloadSubTask.set_status TaskStatus.pending s0]>
                (subsH σ ++ List.map (new_subtask T' dir) (v0 :: vs))) as Esub.
    { unfold write_status. rewrite Hbase. simpl. by rewrite Es. }
    rewrite Esub.
    split.
    { change (tasksH (push_cont ?c ?s)) with (tasksH s).
      rewrite tasksH_write_status, Et. by rewrite list_lookup_insert_eq. }
    repeat (split; [done|]).
    split.
    { change (list_ (push_cont ?c ?s)) with (list_ s).
      by rewrite list_write_status. }
    split.
    + intros l s Hl. pose proof (lookup_lt_Some _ _ _ Hl).
      rewrite list_lookup_insert_ne by (unfold base; lia).
      by apply lookup_app_l_Some.
    + intros i v Hi. destruct i as [|i].
      * injection Hi as <-. rewrite Nat.add_0_r.
        rewrite list_lookup_insert_eq
          by (rewrite length_app; simpl; unfold base; lia).
        eexists. split; [done|]. by simpl.
      * rewrite list_lookup_insert_ne by lia.
        rewrite lookup_app_r by (unfold base; lia).
        replace (base + S i - length (subsH σ)) with (S i) by (unfold base; lia).
        change (List.map ?f ?l) with (f <$> l).
        rewrite list_lookup_fmap, Hi. simpl.
        eexists. split; [done|]. by simpl.
Qed.

(** ** The temporary directory of a folder *)

Lemma substring_all (s : string) : String.substring 0 (String.length s) s = s.
Proof. induction s as [|c s IH]; simpl; [done|]. by rewrite IH. Qed.

Lemma substring_skip (s suffix : string) :
  String.substring (String.length s) (String.length suffix) (s +:+ suffix)
  = suffix.
Proof.
  induction s as [|c s IH]; simpl; [|done].
  apply substring_all.
Qed.

Lemma substring_take (s suffix : string) :
  String.substring 0 (String.length s) (s +:+ suffix) = s.
Proof.
  induction s as [|c s IH]; simpl.
  - by destruct suffix.
  - by rewrite IH.
Qed.

Lemma length_append (s suffix : string) :
  String.length (s +:+ suffix) = String.length s + String.length suffix.
Proof. induction s as [|c s IH]; simpl; [done|]. by rewrite IH. Qed.

Lemma strip_downloading_suffix (s : string) :
  strip_downloading (s +:+ ".downloading") = s.
Proof.
  unfold strip_downloading. rewrite length_append.
  replace (String.length s + String.length ".downloading"
           - String.length ".downloading") with (String.length s) by lia.
  rewrite substring_skip, bool_decide_eq_true_2 by done.
  apply substring_take.
Qed.

(** X12.  The temporary directory that [initTask] gives the subtasks of
    a task is [<task.dir>/<task.name>.downloading]; for a folder that is
    not merged, [onTaskFinish] renames exactly that directory to
    [<task.dir>/<task.name>], the suffix being stripped, and does
    nothing else. *)
Theorem onTaskFinish_renames_folder `{ListingOrder} (task : DownloadTask.t)
    (subs : list DownloadSubTask.t) (fs : FS) (subTask : DownloadSubTask.t) :
  DownloadTask.urlType task = Some URLType.folder ->
  default false (DownloadTask.merge task) = false ->
  hd_error (DownloadTask.tasks task) ≫= (subs !!.) = Some subTask ->
  DownloadSubTask.dir subTask
  = path_join (DownloadTask.dir task) (DownloadTask.name task) +:+ ".downloading" ->
  onTaskFinish task subs fs
  = fs_rename (DownloadSubTask.dir subTask)
      (path_join (DownloadTask.dir task) (DownloadTask.name task)) fs.
Proof.
  intros Hty Hm Hs Hdir. unfold onTaskFinish. rewrite Hty, Hs, Hm. simpl.
  by rewrite Hdir, strip_downloading_suffix.
Qed.

(** ** The last subtask completes *)

Lemma forallb_all {A} (f : A -> bool) (l : list A) :
  (∀ x, x ∈ l -> f x = true) -> forallb f l = true.
Proof.
  intros Hf. apply forallb_forall. intros x Hx. apply Hf.
  by apply list_elem_of_In.
Qed.

Lemma write_status_frame l st σ :
  tasksH (write_status l st σ) = tasksH σ ∧
  list_ (write_status l st σ) = list_ σ ∧
  posts (write_status l st σ) = posts σ ∧
  finishList (write_status l st σ) = finishList σ.
Proof. unfold write_status. by destruct (subsH σ !! l). Qed.

Lemma posts_abortAll ls σ : posts (abortAll ls σ) = posts σ.
Proof.
  unfold abortAll. revert σ. induction ls as [|l ls IH]; intros σ; simpl; [done|].
  rewrite IH. unfold abortTask. destruct (sub_url σ l); [|done].
  by destruct (taskSignal σ !! _).
Qed.

Lemma remove_lists url σ :
  posts (remove url σ) = posts σ ∧ finishList (remove url σ) = finishList σ.
Proof.
  unfold remove. simpl. destruct (findTask url σ); [|done].
  by rewrite posts_abortAll, finishList_abortAll.
Qed.

Lemma remove_keeps_none url σ u :
  taskSignal σ !! u = None -> taskSignal (remove url σ) !! u = None.
Proof.
  intros Hu. unfold remove. simpl. destruct (findTask url σ); [|done].
  apply abortAll_clears. by left.
Qed.

(** X13.  When the pipeline of a subtask completes and the other
    subtasks of its task are all finished, the subtask is finished, the
    token under its url is gone, [onTaskFinish] is scheduled for the
    task, every task of the task's url leaves the active list, and the
    task is appended to the finished list, whether or not it was still
    in the active list. *)
Theorem last_subtask_finishes `{Util} (σ : Store) (k t l c : nat)
    (u : string) (s : DownloadSubTask.t) :
  conts σ !! k = Some (Some (KPipeline t l c)) ->
  default false (ctrlH σ !! c) = false ->
  task_url σ t = Some u ->
  subsH σ !! l = Some s ->
  (∀ l', l' ∈ subtasks σ t ->
         l' = l ∨ sub_status σ l' = Some TaskStatus.finish) ->
  sub_status (step (Settle k Fulfils) σ) l = Some TaskStatus.finish ∧
  taskSignal (step (Settle k Fulfils) σ) !! DownloadSubTask.url s = None ∧
  posts (step (Settle k Fulfils) σ) = posts σ ++ [t] ∧
  finishList (step (Settle k Fulfils) σ) = finishList σ ++ [t] ∧
  list_ (step (Settle k Fulfils) σ)
  = List.filter (fun t' => negb (bool_decide (task_url σ t' = Some u))) (list_ σ) ∧
  findTask u (step (Settle k Fulfils) σ) = None.
Proof.
  intros Hk Hc Hu Hs Hall. unfold step. rewrite Hk. unfold resume.
  change (ctrlH (set_conts ?v σ)) with (ctrlH σ). rewrite Hc.
  unfold default, id. cbn [from_option].
  set (σ0 := set_conts (<[k:=None]> (conts σ)) σ).
  unfold on_piped.
  destruct (write_status_frame l TaskStatus.finish σ0) as (Et & El & Ep & Ef).
  assert (sub_status σ0 l = Some (DownloadSubTask.status s)) as Hl0
    by (unfold sub_status; simpl; by rewrite Hs).
  pose proof (sub_status_write_eq l _ TaskStatus.finish σ0 Hl0) as Hl1.
  assert (sub_url (write_status l TaskStatus.finish σ0) l
          = Some (DownloadSubTask.url s)) as Hurl.
  { rewrite sub_url_write_status. unfold sub_url. simpl. by rewrite Hs. }
  assert (∀ l', l' ∈ subtasks σ t ->
            sub_status (write_status l TaskStatus.finish σ0) l'
            = Some TaskStatus.finish) as Hall1.
  { intros l' Hl'. destruct (decide (l' = l)) as [->|Hne]; [done|].
    rewrite sub_status_write_ne by done.
    by destruct (Hall l' Hl') as [->|Hf]. }
  assert (subtasks (write_status l TaskStatus.finish σ0) t = subtasks σ t) as Esub
    by (unfold subtasks; by rewrite Et).
  assert (task_url (write_status l TaskStatus.finish σ0) t = Some u) as Hu1
    by (unfold task_url; by rewrite Et).
  generalize dependent (write_status l TaskStatus.finish σ0).
  intros σ1 Et El Ep Ef Hl1 Hurl Hall1 Esub Hu1.
  change (tasksH σ0) with (tasksH σ) in Et.
  change (list_ σ0) with (list_ σ) in El.
  change (posts σ0) with (posts σ) in Ep.
  change (finishList σ0) with (finishList σ) in Ef.
  unfold on_finish_task. rewrite Hurl.
  set (σ2 := set_taskSignal (delete (DownloadSubTask.url s) (taskSignal σ1)) σ1).
  assert (forallb (has_status σ2 TaskStatus.finish) (subtasks σ2 t) = true) as ->.
  { apply forallb_all. intros l' Hl'.
    change (subtasks σ2 t) with (subtasks σ1 t) in Hl'. rewrite Esub in Hl'.
    apply has_status_true. change (sub_status σ2 l') with (sub_status σ1 l').
    by apply Hall1. }
  unfold on_finish.
  set (σ3 := set_posts (posts σ2 ++ [t]) σ2).
  assert (task_url σ3 t = Some u) as -> by exact Hu1.
  destruct (remove_frame u σ3) as (Et3 & Es3 & El3).
  destruct (remove_lists u σ3) as (Ep3 & Ef3).
  split; [|split; [|split; [|split; [|split]]]].
  - change (sub_status (remove u σ3) l = Some TaskStatus.finish).
    by rewrite sub_status_remove.
  - change (taskSignal (remove u σ3) !! DownloadSubTask.url s = None).
    apply remove_keeps_none. simpl. apply lookup_delete_eq.
  - change (posts (remove u σ3) = posts σ ++ [t]).
    rewrite Ep3. simpl. by rewrite Ep.
  - change (finishList (remove u σ3) ++ [t] = finishList σ ++ [t]).
    rewrite Ef3. simpl. by rewrite Ef.
  - change (list_ (remove u σ3)
            = List.filter (fun t' => negb (bool_decide (task_url σ t' = Some u)))
                (list_ σ)).
    rewrite El3. change (list_ σ3) with (list_ σ1). rewrite El.
    apply List.filter_ext. intros t'. unfold task_url. simpl. by rewrite Et.
  - change (findTask u (remove u σ3) = None).
    unfold findTask, task_url. rewrite Et3, El3. apply find_filter_negb.
Qed.

(** ** Chains of validation pages *)

Section Chains.
Context {W : Web} (R : Remote).

Lemma createStream_call_error (url : string) (log : list Action)
    (message : string) :
  remote_stream R url = OnError message ->
  eutt eq (interp_state (against R) (createStream_call url) log)
    (Ret (log ++ [Opened url], inr (Rejected (TransportError message)))).
Proof.
  intros Hs. unfold createStream_call.
  rewrite interp_state_bind, against_trigger. cbn [against].
  rewrite bind_ret_l. cbn [fst snd]. rewrite Hs.
  rewrite interp_state_ret. reflexivity.
Qed.

Lemma opens_runs (url : string) (trace : list Action) (o : Opening) :
  opens W R url trace o ->
  ∀ log, eutt eq (interp_state (against R) (createStream url) log)
           (Ret (log ++ trace, o)).
Proof.
  induction 1 as [url message Hs|url stream headers Hs Hct
                 |url stream headers Hs Hct Hp
                 |url stream headers ajaxData url' trace o Hs Hct Hp Hj _ IH];
    intros log; rewrite createStream_unfold.
  - rewrite (createStream_call_error url log message) by done.
    rewrite bind_ret_l. reflexivity.
  - rewrite (createStream_call_binary R url log stream headers) by done.
    rewrite bind_ret_l. reflexivity.
  - rewrite (createStream_call_unparsed R url log stream headers) by done.
    rewrite bind_ret_l. reflexivity.
  - rewrite (createStream_call_challenge R url log stream headers ajaxData url')
      by done.
    rewrite bind_ret_l. cbn [fst snd]. rewrite IH, <- app_assoc. reflexivity.
Qed.

Lemma opens_counts (url : string) (trace : list Action) (o : Opening) :
  opens W R url trace o -> opened trace = S (submitted trace).
Proof.
  induction 1 as [| | |url stream headers ajaxData url' trace o _ _ _ _ _ IH];
    try done.
  unfold opened, submitted in *. simpl. by rewrite IH.
Qed.

(** X14.  [createStream] follows a chain of validation pages of any
    length: against a service whose answers lead from the url through
    finitely many validation pages to a file, an error or a page without
    a parseable action, it makes exactly the requests of the chain, one
    stream opened more than validations submitted, and settles as the
    chain ends: resolved with the stream of the file, rejected with the
    message of the error, or rejected with [ChallengeParseError].  No
    number of hops makes it give up. *)
Theorem createStream_follows_chain (url : string) (trace : list Action)
    (o : Opening) :
  opens W R url trace o ->
  eutt eq (interp_state (against R) (createStream url) [])
    (Ret (trace, o)) ∧
  opened trace = S (submitted trace).
Proof.
  intros Hchain. split; [|by eapply opens_counts].
  by rewrite (opens_runs url trace o Hchain []).
Qed.

End Chains.

(** ** A promise that never settles *)

Lemma interp_state_spin {E F S A} (h : E ~> Monads.stateT S (itree F)) (s : S) :
  eutt eq (interp_state h (@ITree.spin E A) s) (@ITree.spin F (S * A)).
Proof.
  revert s. einit. ecofix CIH. intros s.
  rewrite (itree_eta (@ITree.spin E A)). cbn.
  rewrite interp_state_tau.
  rewrite (itree_eta (@ITree.spin F (S * A))). cbn.
  etau.
Qed.

Lemma bind_spin {E A B} (k : A -> itree E B) :
  eutt eq (ITree.bind (@ITree.spin E A) k) (@ITree.spin E B).
Proof.
  einit. ecofix CIH.
  rewrite (itree_eta (@ITree.spin E A)). cbn.
  rewrite bind_tau.
  rewrite (itree_eta (@ITree.spin E B)). cbn.
  etau.
Qed.

Section Hanging.
Context {W : Web} (R : Remote).

(** X15.  When the page holds a validation action and the submission of
    the validation request fails, the promise of [createStream] never
    settles: the failure is raised inside the listener of [response],
    where nothing catches it, so the promise neither resolves nor
    rejects and the [start] that awaits it stays suspended. *)
Theorem createStream_hangs (url : string) (stream : nat) (headers : Headers)
    (ajaxData : AjaxData.t) :
  remote_stream R url = OnResponse stream headers ->
  headers !! "content-type" = Some "text/html" ->
  parseValidateAjax (remote_text R stream) = Some ajaxData ->
  remote_json R (validation W ajaxData url) = None ->
  eutt eq (interp_state (against R) (createStream url) []) ITree.spin ∧
  ∀ log o, ¬ eutt eq (interp_state (against R) (createStream url) [])
               (Ret (log, o)).
Proof.
  intros Hs Hct Hp Hj.
  assert (eutt eq (interp_state (against R) (createStream url) []) ITree.spin)
    as Hspin.
  { rewrite createStream_unfold.
    assert (eutt eq (interp_state (against R) (createStream_call url) [])
              ITree.spin) as ->; [|apply bind_spin].
    unfold createStream_call.
    rewrite interp_state_bind, against_trigger. cbn [against].
    rewrite bind_ret_l. cbn [fst snd]. rewrite Hs.
    rewrite bool_decide_eq_true_2 by done.
    rewrite interp_state_bind, against_trigger. cbn [against].
    rewrite bind_ret_l. cbn [fst snd]. rewrite Hp.
    rewrite interp_state_bind, against_trigger. cbn [against].
    rewrite bind_ret_l. cbn [fst snd].
    rewrite interp_state_bind, against_trigger. cbn [against].
    rewrite bind_ret_l. cbn [fst snd].
    change (mkRequest _ _ _ _) with (validation W ajaxData url). rewrite Hj.
    apply interp_state_spin. }
  split; [done|]. intros log o Hret. rewrite Hspin in Hret.
  by apply eutt_spin_Ret_abs in Hret.
Qed.

End Hanging.

Section Looping.
Context {W : Web} (R : Remote).

(** Answering an event of [createStream] costs one silent step. *)
Lemma against_trigger_tau {T} (e : httpE T) (log : list Action) {B}
    (k : list Action * T -> itree void1 B) :
  eq_itree eq
    (ITree.bind (interp_state (against R) (ITree.trigger e) log) k)
    (ITree.bind (against R T e log) (fun x => Tau (k x))).
Proof.
  rewrite interp_state_trigger_eqit. cbn. rewrite bind_bind.
  eapply eqit_bind; [reflexivity|]. intros x.
  rewrite bind_tau, bind_ret_l. reflexivity.
Qed.

Lemma createStream_call_challenge_taus (url : string) (log : list Action)
    (stream : nat) (headers : Headers) (ajaxData : AjaxData.t) (url' : string) :
  remote_stream R url = OnResponse stream headers ->
  headers !! "content-type" = Some "text/html" ->
  parseValidateAjax (remote_text R stream) = Some ajaxData ->
  remote_json R (validation W ajaxData url) = Some url' ->
  eq_itree eq (interp_state (against R) (createStream_call url) log)
    (Tau (Tau (Tau (Tau (Ret
       (log ++ [Opened url; ReadText stream; Waited 2000;
                Submitted (validation W ajaxData url)],
        inl url')))))).
Proof.
  intros Hs Hct Hp Hj. unfold createStream_call.
  rewrite interp_state_bind, against_trigger_tau. cbn [against].
  rewrite bind_ret_l. cbn [fst snd]. rewrite Hs.
  rewrite bool_decide_eq_true_2 by done.
  rewrite interp_state_bind, against_trigger_tau. cbn [against].
  rewrite bind_ret_l. cbn [fst snd]. rewrite Hp.
  rewrite interp_state_bind, against_trigger_tau. cbn [against].
  rewrite bind_ret_l. cbn [fst snd].
  rewrite interp_state_bind, against_trigger_tau. cbn [against].
  rewrite bind_ret_l. cbn [fst snd].
  change (mkRequest _ _ _ _) with (validation W ajaxData url). rewrite Hj.
  rewrite interp_state_ret. rewrite <- !app_assoc. reflexivity.
Qed.

Lemma createStream_spins (url : string) (stream : nat) (headers : Headers)
    (ajaxData : AjaxData.t) :
  remote_stream R url = OnResponse stream headers ->
  headers !! "content-type" = Some "text/html" ->
  parseValidateAjax (remote_text R stream) = Some ajaxData ->
  remote_json R (validation W ajaxData url) = Some url ->
  ∀ log, eutt eq (interp_state (against R) (createStream url) log) ITree.spin.
Proof.
  intros Hs Hct Hp Hj. einit. ecofix CIH. intros log.
  unfold createStream. rewrite unfold_iter, interp_state_bind.
  rewrite (createStream_call_challenge_taus url log stream headers ajaxData url)
    by done.
  rewrite !bind_tau, bind_ret_l. cbn [fst snd]. rewrite interp_state_tau.
  rewrite (itree_eta (@ITree.spin void1 (list Action * Opening))). cbn.
  etau. rewrite !tau_euttge. ebase.
Qed.

(** X16.  [createStream] puts no bound on the validation pages it
    follows: against a service whose validation of a page hands back the
    url of that same page, it goes round for ever and its promise never
    settles. *)
Theorem createStream_loops (url : string) (stream : nat) (headers : Headers)
    (ajaxData : AjaxData.t) :
  remote_stream R url = OnResponse stream headers ->
  headers !! "content-type" = Some "text/html" ->
  parseValidateAjax (remote_text R stream) = Some ajaxData ->
  remote_json R (validation W ajaxData url) = Some url ->
  eutt eq (interp_state (against R) (createStream url) []) ITree.spin ∧
  ∀ log o, ¬ eutt eq (interp_state (against R) (createStream url) [])
               (Ret (log, o)).
Proof.
  intros Hs Hct Hp Hj.
  pose proof (createStream_spins url stream headers ajaxData Hs Hct Hp Hj [])
    as Hspin.
  split; [done|]. intros log o Hret. rewrite Hspin in Hret.
  by apply eutt_spin_Ret_abs in Hret.
Qed.

End Looping.

(** ** The queue check *)

(** X17.  The queue check looks at one task only: the first of the
    active list that has no pending subtask.  When that task has
    subtasks and none of them is ready (all paused, failed or finished),
    the check changes nothing, whatever tasks stand behind it in the
    list: they are not started by the queue. *)
Theorem autorun_blocked (σ : Store) (t : nat) (u : string) :
  List.find (fun t' => bool_decide (task_status σ t' = TaskStatus.ready))
            (list_ σ) = Some t ->
  task_url σ t = Some u ->
  findTask u σ = Some t ->
  subtasks σ t ≠ [] ->
  Forall (fun l => sub_status σ l ≠ Some TaskStatus.ready) (subtasks σ t) ->
  autorun σ = σ.
Proof.
  intros Hfind Hu Ht Hne Hall. unfold autorun, checkTask.
  destruct (list_ σ) as [|t0 ts] eqn:El; [done|].
  rewrite Hfind, Hu. cbn [truthy default from_option id].
  destruct (negb (bool_decide (u = ""))); [|done].
  unfold start. rewrite Ht. destruct (canStart σ); cbn [negb]; [|done].
  rewrite bool_decide_eq_false_2 by done.
  unfold run_subtask. rewrite find_none_Forall; [done|].
  eapply Forall_impl; [exact Hall|]. intros l Hl. by apply has_status_false.
Qed.

(** ** The further properties at the scenarios *)

Lemma remove_absent_at_file :
  findTask "https://share/none" file_piping_store = None ∧
  remove "https://share/none" file_piping_store = file_piping_store.
Proof.
  assert (findTask "https://share/none" file_piping_store = None) as Hyp
    by (by vm_compute).
  split; [exact Hyp|]. exact (remove_absent _ _ Hyp).
Defined.

Lemma addTask_admits_at_file :
  findTask folder_url file_piping_store = None ∧
  ∃ σ' T,
    @addTask plain_util (mkOptions "album" folder_url None None) false false
      file_piping_store = (σ', Accepted) ∧
    list_ σ' = list_ file_piping_store ++ [length (tasksH file_piping_store)] ∧
    tasksH σ' = tasksH file_piping_store ++ [T] ∧
    DownloadTask.url T = folder_url.
Proof.
  assert (findTask folder_url file_piping_store = None) as Hyp by (by vm_compute).
  split; [exact Hyp|].
  destruct (@addTask_admits plain_util file_piping_store
              (mkOptions "album" folder_url None None) false Hyp)
    as (σ' & T & H1 & H2 & H3 & H4 & _).
  by exists σ', T.
Defined.

Lemma addTask_overwrite_at_file :
  findTask folder_url file_piping_store = None ∧
  @addTask plain_util (mkOptions "album" folder_url None None) true false
    file_piping_store
  = (file_piping_store, Refused AdmissionCancelled).
Proof.
  assert (findTask folder_url file_piping_store = None) as Hyp by (by vm_compute).
  split; [exact Hyp|].
  exact (proj1 (@addTask_overwrite plain_util file_piping_store
                  (mkOptions "album" folder_url None None) Hyp)).
Defined.

Lemma pause_settles_at_folder :
  findTask folder_url folder_listed_store = Some 0 ∧
  pause folder_url (pause folder_url folder_listed_store).1
  = ((pause folder_url folder_listed_store).1, true).
Proof.
  assert (findTask folder_url folder_listed_store = Some 0) as Hyp
    by (by vm_compute).
  split; [exact Hyp|].
  exact (proj2 (proj2 (pause_settles folder_url folder_listed_store 0 Hyp))).
Defined.

Lemma pauseAll_settles_at_folder :
  unique_urls folder_listed_store ∧ queue (pauseAll folder_listed_store) = 0.
Proof.
  assert (unique_urls folder_listed_store) as Hyp
    by (apply (bool_decide_unpack _); by vm_compute).
  split; [exact Hyp|].
  exact (proj1 (proj2 (pauseAll_settles folder_listed_store Hyp))).
Defined.

(** The first file of the folder is finished and the second paused:
    [start] with reset gets past its guards and takes the second file on
    to pending; the first stays finished.  And while the second file is
    pending, the failure of its transfer leaves the first finished. *)
Lemma finish_is_final_at_folder :
  (findTask folder_url folder_half_paused_store = Some 0 ∧
   canStart folder_half_paused_store = true ∧
   subtasks folder_half_paused_store 0 = [0; 1] ∧
   settles_pending folder_half_paused_store (Start folder_url true) ∧
   sub_status folder_half_paused_store 0 = Some TaskStatus.finish ∧
   sub_status folder_half_paused_store 1 = Some TaskStatus.pause ∧
   sub_status (@step plain_util (Start folder_url true) folder_half_paused_store) 1
   = Some TaskStatus.pending ∧
   sub_status (@step plain_util (Start folder_url true) folder_half_paused_store) 0
   = Some TaskStatus.finish) ∧
  (conts folder_half_store !! 5 = Some (Some (KDownUrl 0 1 false)) ∧
   settles_pending folder_half_store (Settle 5 Rejects) ∧
   sub_status folder_half_store 0 = Some TaskStatus.finish ∧
   sub_status (@step plain_util (Settle 5 Rejects) folder_half_store) 1
   = Some TaskStatus.fail ∧
   sub_status (@step plain_util (Settle 5 Rejects) folder_half_store) 0
   = Some TaskStatus.finish).
Proof.
  assert (sub_status folder_half_paused_store 0 = Some TaskStatus.finish) as Hyp
    by (by vm_compute).
  assert (settles_pending folder_half_store (Settle 5 Rejects)) as Hlive
    by (by vm_compute).
  assert (sub_status folder_half_store 0 = Some TaskStatus.finish) as Hyp'
    by (by vm_compute).
  split.
  - split; [by vm_compute|]. split; [by vm_compute|]. split; [by vm_compute|].
    split; [exact I|]. split; [exact Hyp|]. split; [by vm_compute|].
    split; [by vm_compute|].
    exact (@finish_is_final plain_util folder_half_paused_store
             (Start folder_url true) 0 I Hyp).
  - split; [by vm_compute|]. split; [exact Hlive|]. split; [exact Hyp'|].
    split; [by vm_compute|].
    exact (@finish_is_final plain_util folder_half_store (Settle 5 Rejects) 0
             Hlive Hyp').
Defined.


Lemma start_keeps_cap_at_folder :
  NoDup (flat_map (subtasks folder_paused_store) (list_ folder_paused_store)) ∧
  queue (start folder_url true folder_paused_store)
  <= queue folder_paused_store + 1.
Proof.
  assert (NoDup (flat_map (subtasks folder_paused_store)
                   (list_ folder_paused_store))) as Hyp
    by (apply (bool_decide_unpack _); by vm_compute).
  split; [exact Hyp|].
  exact (proj1 (start_keeps_cap folder_paused_store folder_url true Hyp)).
Defined.

Lemma start_at_capacity_at_four :
  3 <= queue four_started_store ∧
  start "https://share/a" true four_started_store = four_started_store.
Proof.
  assert (3 <= queue four_started_store) as Hyp by (vm_compute; lia).
  split; [exact Hyp|]. exact (start_at_capacity _ _ _ Hyp).
Defined.

Lemma on_failure_fails_at_file :
  @reachable plain_util file_piping_store ∧
  on_failure 0 0 file_piping_store
  = write_status 0 TaskStatus.fail file_piping_store.
Proof.
  split; [exact file_piping_reachable|].
  exact (@on_failure_fails plain_util file_piping_store 0 0
           file_piping_reachable).
Defined.

Lemma pause_leaves_paused_at_file :
  findTask file_url file_piping_store = Some 0 ∧
  0 ∈ subtasks file_piping_store 0 ∧
  sub_status file_piping_store 0 = Some TaskStatus.pending ∧
  sub_url file_piping_store 0 = Some file_url ∧
  sub_status (pause file_url file_piping_store).1 0 = Some TaskStatus.pause ∧
  taskSignal (pause file_url file_piping_store).1 !! file_url = None.
Proof.
  assert (findTask file_url file_piping_store = Some 0) as H1 by (by vm_compute).
  assert (0 ∈ subtasks file_piping_store 0) as H2
    by (apply (bool_decide_unpack _); by vm_compute).
  assert (sub_status file_piping_store 0 = Some TaskStatus.pending) as H3
    by (by vm_compute).
  assert (sub_url file_piping_store 0 = Some file_url) as H4 by (by vm_compute).
  repeat (split; [assumption|]).
  exact (pause_leaves_paused file_url file_piping_store 0 0 file_url
           H1 H2 (or_introl H3) H4).
Defined.

Lemma listing_populates_at_folder :
  conts folder_asked_store !! 0 = Some (Some (KLsShare 0)) ∧
  tasksH folder_asked_store !! 0
  = Some (DownloadTask.mk folder_url None "album" "/downloads" None None []) ∧
  ∃ T', tasksH (@step plain_util (Settle 0 (Listing folder_listing))
                  folder_asked_store) !! 0 = Some T' ∧
        DownloadTask.tasks T' = [0; 1].
Proof.
  assert (conts folder_asked_store !! 0 = Some (Some (KLsShare 0))) as H1
    by (by vm_compute).
  assert (tasksH folder_asked_store !! 0
          = Some (DownloadTask.mk folder_url None "album" "/downloads" None
                    None [])) as H2 by (by vm_compute).
  split; [exact H1|]. split; [exact H2|].
  destruct (@listing_populates plain_util folder_asked_store 0 0 folder_listing
              _ H1 H2) as (T' & HT & _ & _ & _ & _ & Htasks & _).
  exists T'. split; [exact HT|exact Htasks].
Defined.

Lemma onTaskFinish_renames_album :
  hd_error (DownloadTask.tasks album_task) ≫= (parts_subs !!.)
  = Some (DownloadSubTask.mk "https://share/p1" None parts_dir "p1" 1
            TaskStatus.finish (Num 1)) ∧
  @onTaskFinish descending album_task parts_subs parts_fs
  = fs_rename parts_dir "/downloads/big" parts_fs.
Proof.
  split; [reflexivity|].
  exact (@onTaskFinish_renames_folder descending album_task parts_subs parts_fs
           (DownloadSubTask.mk "https://share/p1" None parts_dir "p1" 1
              TaskStatus.finish (Num 1))
           eq_refl eq_refl eq_refl eq_refl).
Defined.

Lemma last_subtask_finishes_at_file :
  conts file_piping_store !! 4 = Some (Some (KPipeline 0 0 0)) ∧
  task_url file_piping_store 0 = Some file_url ∧
  finishList (@step plain_util (Settle 4 Fulfils) file_piping_store) = [0] ∧
  list_ (@step plain_util (Settle 4 Fulfils) file_piping_store) = [].
Proof.
  assert (conts file_piping_store !! 4 = Some (Some (KPipeline 0 0 0))) as H1
    by (by vm_compute).
  assert (default false (ctrlH file_piping_store !! 0) = false) as H2
    by (by vm_compute).
  assert (task_url file_piping_store 0 = Some file_url) as H3 by (by vm_compute).
  assert (subsH file_piping_store !! 0
          = Some (DownloadSubTask.mk file_url None
                    "/downloads/doc.pdf.downloading" "doc.pdf" 0
                    TaskStatus.pending (Num 42))) as H4 by (by vm_compute).
  assert (∀ l', l' ∈ subtasks file_piping_store 0 ->
            l' = 0 ∨ sub_status file_piping_store l' = Some TaskStatus.finish)
    as H5.
  { intros l' Hl'. left.
    assert (subtasks file_piping_store 0 = [0]) as E by (by vm_compute).
    rewrite E in Hl'. by apply list_elem_of_singleton in Hl'. }
  split; [exact H1|]. split; [exact H3|].
  destruct (@last_subtask_finishes plain_util file_piping_store 4 0 0 0 file_url
              _ H1 H2 H3 H4 H5) as (_ & _ & _ & Hfin & Hlist & _).
  split; [rewrite Hfin|rewrite Hlist]; by vm_compute.
Defined.

Lemma challenge_opens :
  opens challenge_web challenge_remote "https://cdn/abc"
    [ Opened "https://cdn/abc"; ReadText 0; Waited 2000;
      Submitted (mkRequest "https://cdn/ajax.php" "post" "https://cdn/abc"
                   [("sign", "s1")]);
      Opened "https://cdn/real" ]
    (Resolved 1).
Proof.
  apply (opens_challenge challenge_web challenge_remote "https://cdn/abc" 0
           {[ "content-type" := "text/html" ]}
           (AjaxData.mk "/ajax.php" "post" [("sign", "s1")])
           "https://cdn/real" [Opened "https://cdn/real"] (Resolved 1));
    try reflexivity.
  apply (opens_file challenge_web challenge_remote "https://cdn/real" 1
           {[ "content-type" := "application/octet-stream" ]});
    [reflexivity|by vm_compute].
Qed.

Lemma createStream_follows_chain_at_service :
  eutt eq
    (interp_state (against challenge_remote)
       (@createStream challenge_web "https://cdn/abc") [])
    (Ret ([ Opened "https://cdn/abc"; ReadText 0; Waited 2000;
            Submitted (mkRequest "https://cdn/ajax.php" "post"
                         "https://cdn/abc" [("sign", "s1")]);
            Opened "https://cdn/real" ],
          Resolved 1)).
Proof.
  exact (proj1 (@createStream_follows_chain challenge_web challenge_remote
                  "https://cdn/abc" _ _ challenge_opens)).
Defined.

Lemma createStream_hangs_at_service :
  remote_json failing_remote
    (validation challenge_web
       (AjaxData.mk "/ajax.php" "post" [("sign", "s1")]) "https://cdn/abc")
  = None ∧
  eutt eq
    (interp_state (against failing_remote)
       (@createStream challenge_web "https://cdn/abc") [])
    ITree.spin.
Proof.
  split; [reflexivity|].
  exact (proj1 (@createStream_hangs challenge_web failing_remote
                  "https://cdn/abc" 0 {[ "content-type" := "text/html" ]}
                  (AjaxData.mk "/ajax.php" "post" [("sign", "s1")])
                  eq_refl eq_refl eq_refl eq_refl)).
Defined.

Lemma createStream_loops_at_service :
  remote_json circular_remote
    (validation challenge_web
       (AjaxData.mk "/ajax.php" "post" [("sign", "s1")]) "https://cdn/abc")
  = Some "https://cdn/abc" ∧
  eutt eq
    (interp_state (against circular_remote)
       (@createStream challenge_web "https://cdn/abc") [])
    ITree.spin.
Proof.
  split; [reflexivity|].
  exact (proj1 (@createStream_loops challenge_web circular_remote
                  "https://cdn/abc" 0 {[ "content-type" := "text/html" ]}
                  (AjaxData.mk "/ajax.php" "post" [("sign", "s1")])
                  eq_refl eq_refl eq_refl eq_refl)).
Defined.

Lemma autorun_blocked_at_folder :
  list_ blocked_store = [0; 1] ∧
  task_status blocked_store 1 = TaskStatus.ready ∧
  subtasks blocked_store 1 = [] ∧
  autorun blocked_store = blocked_store.
Proof.
  split; [by vm_compute|]. split; [by vm_compute|]. split; [by vm_compute|].
  refine (autorun_blocked blocked_store 0 folder_url _ _ _ _ _);
    try (by vm_compute).
  apply (bool_decide_unpack _). by vm_compute.
Defined.
